(** * sqltraced: DSN metadata normalisation and the span verification script

    A shallow embedding of [tracer/contrib/database/sqltraced]: the
    metadata normaliser ([parseDSN], [normalize], [normalizeKey]) and the
    test-support script ([AllSQLTests], [testDB], [testStatement],
    [testTransaction], [newDB]).

    Go maps are reference objects: a variable of type [map[string]string]
    holds either nil or the address of a map object.  The embedding keeps a
    store of map objects, and a map variable is an optional address into
    it, so that allocation ([make]), in-place update ([m[k] = v],
    [delete]) and aliasing are visible in the statements. *)

From stdpp Require Import base option list gmap strings.
From Stdlib Require Import NArith Ascii.

(** ** The store of Go map objects *)

Module Store.

(** Address of a map object. *)
Abbreviation loc := nat (only parsing).

(** The allocated map objects, by address. *)
Abbreviation t := (list (gmap string string)) (only parsing).

(** A Go value of type [map[string]string]: nil, or an address. *)
Abbreviation mapref := (option nat) (only parsing).

(** Contents of the object at [l] (no entries when nothing is there). *)
Definition get (h : t) (l : loc) : gmap string string :=
  default ∅ (h !! l).

(** Contents read through a map value; a nil map reads as empty. *)
Definition contents (h : t) (r : mapref) : gmap string string :=
  match r with
  | Some l => get h l
  | None => ∅
  end.

(** Allocation of a new object with the given contents. *)
Definition alloc (c : gmap string string) (h : t) : loc * t :=
  (length h, h ++ [c]).

(** In-place replacement of the contents of the object at [l]. *)
Definition put (l : loc) (c : gmap string string) (h : t) : t :=
  <[l := c]> h.

(** [m[k] = v] on the object at [l]. *)
Definition set_key (l : loc) (k v : string) (h : t) : t :=
  put l (<[k := v]> (get h l)) h.

(** [delete(m, k)]; deleting from a nil map is a no-op in Go. *)
Definition delete_key (r : mapref) (k : string) (h : t) : t :=
  match r with
  | Some l => put l (delete k (get h l)) h
  | None => h
  end.

End Store.

(** ** Iteration order of [range] over a map

    Go leaves the order in which [range] visits the entries of a map
    unspecified.  An iteration order is any enumeration of the entries:
    each entry exactly once, in some order. *)

Record RangeOrder := mkRangeOrder {
  range_entries :> gmap string string → list (string * string);
  range_entries_perm : ∀ m, range_entries m ≡ₚ map_to_list m
}.

(** The enumeration stdpp itself uses. *)
Definition canonical_order : RangeOrder :=
  mkRangeOrder map_to_list (λ m, reflexivity _).

(** The same entries visited backwards. *)
Definition reverse_order : RangeOrder :=
  mkRangeOrder (λ m, reverse (map_to_list m))
               (λ m, reverse_Permutation (map_to_list m)).

(** ** parse.go *)

(** [normalizeKey] (parse.go, lines 29-42). *)
Definition normalizeKey (k : string) : string * bool :=
  if String.eqb k "user" then ("db.user", true)
  else if String.eqb k "application_name" then ("db.application", true)
  else if String.eqb k "dbname" then ("db.name", true)
  else if String.eqb k "host" || String.eqb k "port" then ("out." +:+ k, true)
  else ("", false).

(** One iteration of the loop of [normalize] (lines 22-24), writing into
    the map object at [m]. *)
Definition normalize_step (m : Store.loc) (h : Store.t) (kv : string * string)
  : Store.t :=
  match normalizeKey kv.1 with
  | (nk, true) => Store.set_key m nk kv.2 h
  | (_, false) => h
  end.

Section Normalizer.

(** The order in which [range meta] visits the entries. *)
Variable order : RangeOrder.

(** [normalize] (lines 19-27): [make] a map, copy the accepted entries
    under their canonical keys, return the new map.  Ranging over a nil
    map runs the body zero times. *)
Definition normalize (meta : Store.mapref) (h : Store.t)
  : Store.mapref * Store.t :=
  let '(m, h1) := Store.alloc ∅ h in
  let h2 := foldl (normalize_step m) h1 (order (Store.contents h1 meta)) in
  (Some m, h2).

(** The DSN parsers of package [parsedsn] are not part of these sources.
    A parser is taken as a function of the DSN that returns the entries
    of the map it builds ([None] for a nil map) and an optional error. *)
Variable Postgres MySQL : string → option (gmap string string) * option string.

(** A call of a parser: the map it returns is an object of its own. *)
Definition call_parser (r : option (gmap string string) * option string)
    (h : Store.t) : (Store.mapref * option string) * Store.t :=
  match r.1 with
  | Some c => let '(l, h') := Store.alloc c h in ((Some l, r.2), h')
  | None => ((None, r.2), h)
  end.

(** [parseDSN] (lines 8-17).  The named results [meta] and [err] start
    as nil; the switch has no default case. *)
Definition parseDSN (driverType dsn : string) (h : Store.t)
  : (Store.mapref * option string) * Store.t :=
  let '((meta, err), h1) :=
    if String.eqb driverType "*pq.Driver" then call_parser (Postgres dsn) h
    else if String.eqb driverType "*mysql.MySQLDriver" then call_parser (MySQL dsn) h
    else ((None, None), h) in
  let '(meta, h2) := normalize meta h1 in
  ((meta, err), h2).

End Normalizer.

(** ** The Tag Key Mapping of the specification *)

(** The table of raw attribute names and canonical tag names, row by row
    as the specification prints it. *)
Definition tag_key_mapping : list (string * string) :=
  [ ("user", "db.user");
    ("application_name", "db.application");
    ("dbname", "db.name");
    ("host", "out.host");
    ("port", "out.port") ].

(** What the specification asks of the normaliser, in its own words: the
    canonical key of every row whose raw attribute appears, bound to that
    attribute's value, and nothing else. *)
Definition table_image (raw : gmap string string) : gmap string string :=
  foldr (λ row acc,
           match raw !! row.1 with
           | Some v => <[row.2 := v]> acc
           | None => acc
           end) ∅ tag_key_mapping.

(** The loop of [normalize] seen on the contents of the target map only. *)
Definition normalize_entries (es : list (string * string))
    (acc : gmap string string) : gmap string string :=
  foldl (λ acc kv,
           match normalizeKey kv.1 with
           | (nk, true) => <[nk := kv.2]> acc
           | (_, false) => acc
           end) acc es.

(** What the parser selected by the switch of [parseDSN] returns: the
    entries of its map and its error; nil and nil when no case applies. *)
Definition parser_result
    (Postgres MySQL : string → option (gmap string string) * option string)
    (driverType dsn : string) : option (gmap string string) * option string :=
  if String.eqb driverType "*pq.Driver" then Postgres dsn
  else if String.eqb driverType "*mysql.MySQLDriver" then MySQL dsn
  else (None, None).

(** ** Spans, tracer and transport *)

(** Modelled from the spec: package [tracer] is not part of these sources.
    The operation types are the fixed vocabulary of the Span entry of the
    data model; [Custom] covers spans the application opens itself, such as
    the parent span of the script. *)
Inductive OpType :=
| ConnectionCheck
| Query
| Prepare
| Execute
| TransactionBegin
| TransactionRollback
| TransactionCommit
| Custom (name : string).

(** Modelled from the spec: [tracer.Span] is not part of these sources; the
    fields are those of the Span entry of the data model, timestamps left
    out.  [Meta] is the address of the span's metadata map, [ParentID] the
    weak reference to the parent (an identifier only). *)
Record Span := mkSpan {
  SpanType : OpType;
  Resource : string;
  Meta : nat;
  SpanID : N;
  TraceID : N;
  ParentID : option N
}.

(** What a run of the script can touch: the map objects, the span objects
    (a [*tracer.Span] is an address into [spans]), the tracer's supply of
    identifiers and its buffer of closed spans, the traces the capturing
    transport holds, and the outcome of every assertion made on
    [*testing.T], in order. *)
Record World := mkWorld {
  maps : list (gmap string string);
  spans : list Span;
  next_id : N;
  buffer : list nat;
  captured : list (list nat);
  asserted : list bool
}.

(** Computations of the script: a state transformer on the world; [None]
    is a Go panic (index out of range, nil dereference) or [log.Fatal]. *)
Definition T (A : Type) : Type := World → option (A * World).

Definition ret {A} (a : A) : T A := λ w, Some (a, w).

Definition bind {A B} (m : T A) (k : A → T B) : T B :=
  λ w, match m w with
       | Some (a, w') => k a w'
       | None => None
       end.

Definition panic {A} : T A := λ _, None.

Declare Scope go_scope.
Delimit Scope go_scope with go.
Notation "x <- m ;; k" := (bind m (λ x, k))
  (at level 100, m at next level, right associativity) : go_scope.
Notation "m ;;; k" := (bind m (λ _, k))
  (at level 100, right associativity) : go_scope.
Open Scope go_scope.

(** A step that only touches the map objects. *)
Definition on_maps {A} (f : list (gmap string string) → A * list (gmap string string))
  : T A :=
  λ w, let '(a, h) := f (maps w) in
       Some (a, mkWorld h (spans w) (next_id w) (buffer w) (captured w) (asserted w)).

Definition alloc_map (c : gmap string string) : T nat := on_maps (Store.alloc c).

Definition read_map (l : nat) : T (gmap string string) :=
  λ w, Some (Store.get (maps w) l, w).

(** [new(Span)] with the given field values. *)
Definition new_span (s : Span) : T nat :=
  λ w, Some (length (spans w),
             mkWorld (maps w) (spans w ++ [s]) (next_id w) (buffer w)
                     (captured w) (asserted w)).

(** Reading through a span pointer. *)
Definition load (p : nat) : T Span :=
  λ w, match spans w !! p with
       | Some s => Some (s, w)
       | None => None
       end.

(** [p.Resource = r]. *)
Definition set_Resource (p : nat) (r : string) : T unit :=
  s <- load p;;
  λ w, Some (tt, mkWorld (maps w)
                   (<[p := mkSpan (SpanType s) r (Meta s) (SpanID s) (TraceID s)
                                  (ParentID s)]> (spans w))
                   (next_id w) (buffer w) (captured w) (asserted w)).

(** [s[i]] on a slice; out of range panics. *)
Definition index {A} (s : list A) (i : nat) : T A :=
  match s !! i with
  | Some a => ret a
  | None => panic
  end.

(** An assertion of package [assert]: the outcome is recorded and the run
    goes on. *)
Definition assert_that (b : bool) : T unit :=
  λ w, Some (tt, mkWorld (maps w) (spans w) (next_id w) (buffer w) (captured w)
                         (asserted w ++ [b])).

(** [assert.Equal(nil, err)]. *)
Definition assert_Equal_nil (err : option string) : T unit :=
  assert_that (bool_decide (err = None)).

(** [assert.Len(s, n)]. *)
Definition assert_Len {A} (s : list A) (n : nat) : T unit :=
  assert_that (bool_decide (length s = n)).

(** The key of the statement-text tag (lines 100, 102). *)
Definition sql_query_key : string := "sql.query".

(** Modelled from the spec: a calling context is the ambient parent span
    it carries, if any (section 9); [context.Background()] carries none. *)
Definition Background : option nat := None.

(** Modelled from the spec: [tracer.ContextWithSpan] is not part of these
    sources; the context it returns carries the given span. *)
Definition ContextWithSpan (ctx : option nat) (span : nat) : option nat := Some span.

(** Modelled from the spec: the tracer's supply of span identifiers is not
    part of these sources; a counter stands for it. *)
Definition fresh_id : T N :=
  λ w, Some (next_id w,
             mkWorld (maps w) (spans w) (N.succ (next_id w)) (buffer w)
                     (captured w) (asserted w)).

(** Modelled from the spec: the Span Factory (section 4.2) is not part of
    these sources.  With an ambient span in the context the new span refers
    to it as parent and shares its trace identifier, otherwise it starts a
    new trace; its metadata begins as a copy of the base metadata. *)
Definition startSpan (ty : OpType) (resource : string) (ctx : option nat)
    (base : gmap string string) : T nat :=
  id <- fresh_id;;
  m <- alloc_map base;;
  match ctx with
  | Some p =>
      parent <- load p;;
      new_span (mkSpan ty resource m id (TraceID parent) (Some (SpanID parent)))
  | None =>
      new_span (mkSpan ty resource m id id None)
  end.

(** Modelled from the spec: closing a span (section 4.2) submits it to the
    buffer of closed spans. *)
Definition Finish (span : nat) : T unit :=
  λ w, Some (tt, mkWorld (maps w) (spans w) (next_id w) (buffer w ++ [span])
                         (captured w) (asserted w)).

(** Modelled from the spec: [Tracer.NewRootSpan] is not part of these
    sources; a span without parent starts a new trace (section 3). *)
Definition NewRootSpan (name service resource : string) : T nat :=
  startSpan (Custom name) resource Background ∅.

(** Modelled from the spec: [Span.SetMeta] is not part of these sources; it
    adds a key to the span's metadata map (section 4.2). *)
Definition SetMeta (span : nat) (k v : string) : T unit :=
  s <- load span;;
  on_maps (λ h, (tt, Store.set_key (Meta s) k v h)).

(** Modelled from the spec: grouping of closed spans into traces is not
    part of these sources; a trace is the set of spans sharing one trace
    identifier (glossary), here in submission order. *)
Fixpoint add_to_traces (tid : N) (p : nat) (ts : list (N * list nat))
  : list (N * list nat) :=
  match ts with
  | [] => [(tid, [p])]
  | (t, ps) :: ts' =>
      if N.eqb t tid then (t, ps ++ [p]) :: ts'
      else (t, ps) :: add_to_traces tid p ts'
  end.

(** Modelled from the spec: the traces of a list of closed spans, each
    span given with its trace identifier. *)
Definition group_traces (closed : list (N * nat)) : list (list nat) :=
  (foldl (λ ts c, add_to_traces c.1 c.2 ts) [] closed).*2.

(** Modelled from the spec: [Tracer.FlushTraces] is not part of these
    sources; it hands the closed spans, grouped into traces, to the
    transport and empties the buffer. *)
Definition FlushTraces : T unit :=
  λ w, match mapM (λ p, (λ s, (TraceID s, p)) <$> spans w !! p) (buffer w) with
       | Some closed =>
           Some (tt, mkWorld (maps w) (spans w) (next_id w) []
                             (captured w ++ group_traces closed) (asserted w))
       | None => None
       end.

(** Modelled from the spec: [DummyTransport.Traces] is not part of these
    sources; the capturing transport returns the traces it received since
    the last call. *)
Definition Transport_Traces : T (list (list nat)) :=
  λ w, Some (captured w,
             mkWorld (maps w) (spans w) (next_id w) (buffer w) [] (asserted w)).

(** ** The traced handle *)

(** Modelled from the spec: the traced handle ([OpenTraced] and the
    methods of the handle, its statements and its transactions) is not part
    of these sources.  A handle holds the address of its Connection
    Descriptor; statements and transactions created from it share that
    descriptor by reference (section 3). *)
Record TracedHandle := mkHandle { descriptor : nat }.

(** Modelled from the spec: a Traced Statement remembers the statement
    text it was prepared with (section 4.3, Statement execution). *)
Record Stmt := mkStmt { stmt_handle : TracedHandle; stmt_query : string }.

(** Modelled from the spec: a Traced Transaction remembers the ambient
    parent its begin call was given (section 4.3, Transaction begin). *)
Record Tx := mkTx { tx_handle : TracedHandle; tx_parent : option nat }.

(** [DB] (lines 216-222).  The embedded [*sql.DB] is the traced handle; the
    tracer and the transport are those of the world. *)
Record DB := mkDB { sqlDB : TracedHandle; Name : string; Service : string }.

(** [strings.ToLower], on the ASCII letters.  No other character lowers to
    a letter of the two names the switch of [testStatement] compares with,
    so the switch takes the same branch. *)
Definition lower_ascii (c : ascii) : ascii :=
  let n := N_of_ascii c in
  if (65 <=? n)%N && (n <=? 90)%N then ascii_of_N (n + 32) else c.

Fixpoint ToLower (s : string) : string :=
  match s with
  | EmptyString => EmptyString
  | String c s' => String (lower_ascii c) (ToLower s')
  end.

(** [fmt.Sprintf] with one string operand: the first [%s] of the format is
    replaced by the operand. *)
Fixpoint Sprintf (format arg : string) : string :=
  match format with
  | String "%"%char (String "s"%char rest) => arg +:+ rest
  | String c rest => String c (Sprintf rest arg)
  | EmptyString => EmptyString
  end.

Section Script.

(** The iteration order of [range] and the DSN parsers, as for
    [parseDSN]. *)
Variable order : RangeOrder.
Variable Postgres MySQL : string → option (gmap string string) * option string.

(** The specification leaves open (section 9) which value wins when the
    Connection Descriptor already has the key of an operation-specific
    tag. *)
Variable statement_tag_wins : bool.

(** The specification leaves open (section 7) whether a DSN parse error
    fails the opening of the handle or opens it with an empty
    descriptor. *)
Variable fail_open_on_dsn_error : bool.

(** [tracer.CopySpan] is not part of these sources: whether the copy
    refers to the metadata map of the original or to a map of its own is
    left open. *)
Variable CopySpan_shares_meta : bool.

(** Modelled from the spec: opening a handle (section 4.3, Open) triggers
    one call of the Metadata Normalizer; the result is the Connection
    Descriptor. *)
Definition OpenTraced (driver dsn service : string)
  : T (option TracedHandle * option string) :=
  r <- on_maps (parseDSN order Postgres MySQL driver dsn);;
  match r.2 with
  | Some e =>
      if fail_open_on_dsn_error then ret (None, Some e)
      else d <- alloc_map ∅;; ret (Some (mkHandle d), None)
  | None =>
      match r.1 with
      | Some d => ret (Some (mkHandle d), None)
      | None => panic
      end
  end.

(** Modelled from the spec: the statement-text tag is added to the
    metadata of a span that carries a statement (section 4.3). *)
Definition attach_statement_text (span : nat) (q : string) : T unit :=
  s <- load span;;
  meta <- read_map (Meta s);;
  match meta !! sql_query_key with
  | Some _ => if statement_tag_wins then SetMeta span sql_query_key q else ret tt
  | None => SetMeta span sql_query_key q
  end.

(** Modelled from the spec: one traced operation (section 4.3).  A span
    is started from the descriptor's tags under the ambient parent of the
    context, tagged with the statement text if there is one, and closed
    when the underlying operation completes.  The driver's own work is
    out of scope and taken to succeed, as the script asserts after every
    call. *)
Definition traced (db : TracedHandle) (ty : OpType) (resource : string)
    (ctx : option nat) (text : option string) : T nat :=
  base <- read_map (descriptor db);;
  span <- startSpan ty resource ctx base;;
  match text with
  | Some q => attach_statement_text span q
  | None => ret tt
  end;;;
  Finish span;;;
  ret span.

(** Modelled from the spec: connection check, resource the fixed label
    the script expects at line 83. *)
Definition DB_PingContext (db : TracedHandle) (ctx : option nat)
  : T (option string) :=
  traced db ConnectionCheck "Ping" ctx None;;; ret None.

(** Modelled from the spec: [db.Ping()], the connection check without
    ambient parent. *)
Definition DB_Ping (db : TracedHandle) : T (option string) :=
  DB_PingContext db Background.

(** Modelled from the spec: direct query, resource the statement text. *)
Definition DB_QueryContext (db : TracedHandle) (ctx : option nat) (query : string)
  : T (option string) :=
  traced db Query query ctx (Some query);;; ret None.

(** Modelled from the spec: [db.Query(query)], the direct query without
    ambient parent. *)
Definition DB_Query (db : TracedHandle) (query : string) : T (option string) :=
  DB_QueryContext db Background query.

(** Modelled from the spec: prepare, resource the statement text; the
    Traced Statement it returns is bound to the same descriptor. *)
Definition DB_PrepareContext (db : TracedHandle) (ctx : option nat) (query : string)
  : T (Stmt * option string) :=
  traced db Prepare query ctx (Some query);;; ret (mkStmt db query, None).

(** Modelled from the spec: [db.Prepare(query)], prepare without ambient
    parent. *)
Definition DB_Prepare (db : TracedHandle) (query : string)
  : T (Stmt * option string) :=
  DB_PrepareContext db Background query.

(** Modelled from the spec: execution of a Traced Statement, resource the
    text the statement was prepared with, whatever the arguments. *)
Definition Stmt_ExecContext (stmt : Stmt) (ctx : option nat) (args : list string)
  : T (option string) :=
  traced (stmt_handle stmt) Execute (stmt_query stmt) ctx (Some (stmt_query stmt));;;
  ret None.

(** Modelled from the spec: [stmt.Exec(args...)], statement execution
    without ambient parent. *)
Definition Stmt_Exec (stmt : Stmt) (args : list string) : T (option string) :=
  Stmt_ExecContext stmt Background args.

(** Modelled from the spec: transaction begin, resource the fixed label
    the script expects at line 166; the transaction keeps the ambient
    parent of the context. *)
Definition DB_BeginTx (db : TracedHandle) (ctx : option nat)
  : T (Tx * option string) :=
  traced db TransactionBegin "Begin" ctx None;;; ret (mkTx db ctx, None).

(** Modelled from the spec: [db.Begin()], transaction begin without
    ambient parent. *)
Definition DB_Begin (db : TracedHandle) : T (Tx * option string) :=
  DB_BeginTx db Background.

(** Modelled from the spec: rollback, resource the fixed label the script
    expects at line 180, parented like the begin span. *)
Definition Tx_Rollback (tx : Tx) : T (option string) :=
  traced (tx_handle tx) TransactionRollback "Rollback" (tx_parent tx) None;;;
  ret None.

(** Modelled from the spec: commit, resource the fixed label the script
    expects at line 211, parented like the begin span. *)
Definition Tx_Commit (tx : Tx) : T (option string) :=
  traced (tx_handle tx) TransactionCommit "Commit" (tx_parent tx) None;;;
  ret None.

(** Modelled from the spec: execution inside a transaction, as a direct
    exec but under the ambient parent of the transaction when it has
    one. *)
Definition Tx_ExecContext (tx : Tx) (ctx : option nat) (query : string)
  : T (option string) :=
  traced (tx_handle tx) Execute query
         (match tx_parent tx with Some p => Some p | None => ctx end)
         (Some query);;;
  ret None.

(** ** Helpers of package [tracer] used by the script *)

(** Modelled from the spec: [tracer.CopySpan] is not part of these
    sources; a new span with the fields of the copied one. *)
Definition CopySpan (span : nat) : T nat :=
  s <- load span;;
  m <- (if CopySpan_shares_meta then ret (Meta s)
        else c <- read_map (Meta s);; alloc_map c);;
  new_span (mkSpan (SpanType s) (Resource s) m (SpanID s) (TraceID s) (ParentID s)).

(** Modelled from the spec: [tracer.CompareSpan] is not part of these
    sources; the script asserts that resource name and metadata match
    the expected span exactly (section 4.4). *)
Definition CompareSpan (expectedSpan actualSpan : nat) : T unit :=
  e <- load expectedSpan;;
  a <- load actualSpan;;
  assert_that (bool_decide (Resource e = Resource a));;;
  me <- read_map (Meta e);;
  ma <- read_map (Meta a);;
  assert_that (bool_decide (me = ma)).

(** [delete(expectedSpan.Meta, "sql.query")] (lines 102, 130, 147, 207). *)
Definition delete_statement_text (expectedSpan : nat) : T unit :=
  s <- load expectedSpan;;
  on_maps (λ h, (tt, Store.delete_key (Some (Meta s)) sql_query_key h)).

(** ** The script *)

(** [testDB], lines 71-84.  The value returned is that of the local
    [traces]. *)
Definition testDB_Ping (db : DB) (expectedSpan : nat) : T (list (list nat)) :=
  err <- DB_Ping (sqlDB db);;
  assert_Equal_nil err;;;
  FlushTraces;;;
  traces <- Transport_Traces;;
  assert_Len traces 1;;;
  spans <- index traces 0;;
  assert_Len spans 1;;;
  actualSpan <- index spans 0;;
  pingSpan <- CopySpan expectedSpan;;
  set_Resource pingSpan "Ping";;;
  CompareSpan pingSpan actualSpan;;;
  ret traces.

(** [testDB], lines 86-102.  The rows of the query belong to the driver;
    closing them (line 88) does not touch the world. *)
Definition testDB_Query (db : DB) (expectedSpan : nat) (query : string)
  : T (list (list nat)) :=
  err <- DB_Query (sqlDB db) query;;
  assert_Equal_nil err;;;
  FlushTraces;;;
  traces <- Transport_Traces;;
  assert_Len traces 1;;;
  spans <- index traces 0;;
  assert_Len spans 1;;;
  actualSpan <- index spans 0;;
  querySpan <- CopySpan expectedSpan;;
  set_Resource querySpan query;;;
  SetMeta querySpan sql_query_key query;;;
  CompareSpan querySpan actualSpan;;;
  delete_statement_text expectedSpan;;;
  ret traces.

(** [testDB] (lines 67-103). *)
Definition testDB (db : DB) (expectedSpan : nat) : T unit :=
  let query := "select id, name, population from city limit 5" in
  testDB_Ping db expectedSpan;;;
  testDB_Query db expectedSpan query;;;
  ret tt.

(** The statement text of [testStatement] (lines 107-113). *)
Definition statement_query (db : DB) : string :=
  let query := "INSERT INTO city(name) VALUES(%s)" in
  let name := ToLower (Name db) in
  if String.eqb name "postgres" then Sprintf query "$1"
  else if String.eqb name "mysql" then Sprintf query "?"
  else query.

(** [testStatement], lines 115-130. *)
Definition testStatement_Prepare (db : DB) (expectedSpan : nat) (query : string)
  : T (Stmt * list (list nat)) :=
  r <- DB_Prepare (sqlDB db) query;;
  let stmt := r.1 in
  assert_Equal_nil r.2;;;
  FlushTraces;;;
  traces <- Transport_Traces;;
  assert_Len traces 1;;;
  spans <- index traces 0;;
  assert_Len spans 1;;;
  actualSpan <- index spans 0;;
  prepareSpan <- CopySpan expectedSpan;;
  set_Resource prepareSpan query;;;
  SetMeta prepareSpan sql_query_key query;;;
  CompareSpan prepareSpan actualSpan;;;
  delete_statement_text expectedSpan;;;
  ret (stmt, traces).

(** [testStatement], lines 132-147. *)
Definition testStatement_Exec (db : DB) (expectedSpan : nat) (stmt : Stmt)
    (query : string) : T (list (list nat)) :=
  err2 <- Stmt_Exec stmt ["New York"];;
  assert_Equal_nil err2;;;
  FlushTraces;;;
  traces <- Transport_Traces;;
  assert_Len traces 1;;;
  spans <- index traces 0;;
  assert_Len spans 1;;;
  actualSpan <- index spans 0;;
  execSpan <- CopySpan expectedSpan;;
  set_Resource execSpan query;;;
  SetMeta execSpan sql_query_key query;;;
  CompareSpan execSpan actualSpan;;;
  delete_statement_text expectedSpan;;;
  ret traces.

(** [testStatement] (lines 105-148). *)
Definition testStatement (db : DB) (expectedSpan : nat) : T unit :=
  let query := statement_query db in
  r <- testStatement_Prepare db expectedSpan query;;
  testStatement_Exec db expectedSpan r.1 query;;;
  ret tt.

(** [testTransaction], lines 154-167. *)
Definition testTransaction_Begin (db : DB) (expectedSpan : nat)
  : T (Tx * list (list nat)) :=
  r <- DB_Begin (sqlDB db);;
  let tx := r.1 in
  assert_Equal_nil r.2;;;
  FlushTraces;;;
  traces <- Transport_Traces;;
  assert_Len traces 1;;;
  spans <- index traces 0;;
  assert_Len spans 1;;;
  actualSpan <- index spans 0;;
  beginSpan <- CopySpan expectedSpan;;
  set_Resource beginSpan "Begin";;;
  CompareSpan beginSpan actualSpan;;;
  ret (tx, traces).

(** [testTransaction], lines 169-181. *)
Definition testTransaction_Rollback (db : DB) (expectedSpan : nat) (tx : Tx)
  : T (list (list nat)) :=
  err <- Tx_Rollback tx;;
  assert_Equal_nil err;;;
  FlushTraces;;;
  traces <- Transport_Traces;;
  assert_Len traces 1;;;
  spans <- index traces 0;;
  assert_Len spans 1;;;
  actualSpan <- index spans 0;;
  rollbackSpan <- CopySpan expectedSpan;;
  set_Resource rollbackSpan "Rollback";;;
  CompareSpan rollbackSpan actualSpan;;;
  ret traces.

(** [testTransaction], lines 183-212.  The value returned is the parent
    span together with the local [traces]. *)
Definition testTransaction_Exec (db : DB) (expectedSpan : nat) (query : string)
  : T (nat * list (list nat)) :=
  parentSpan <- NewRootSpan "test.parent" "test" "parent";;
  let ctx := ContextWithSpan Background parentSpan in
  r <- DB_BeginTx (sqlDB db) ctx;;
  let tx := r.1 in
  assert_Equal_nil r.2;;;
  err <- Tx_ExecContext tx ctx query;;
  assert_Equal_nil err;;;
  err <- Tx_Commit tx;;
  assert_Equal_nil err;;;
  FlushTraces;;;
  traces <- Transport_Traces;;
  assert_Len traces 1;;;
  spans <- index traces 0;;
  assert_Len spans 3;;;
  actualSpan <- index spans 1;;
  execSpan <- CopySpan expectedSpan;;
  set_Resource execSpan query;;;
  SetMeta execSpan sql_query_key query;;;
  CompareSpan execSpan actualSpan;;;
  delete_statement_text expectedSpan;;;
  actualSpan <- index spans 2;;
  commitSpan <- CopySpan expectedSpan;;
  set_Resource commitSpan "Commit";;;
  CompareSpan commitSpan actualSpan;;;
  ret (parentSpan, traces).

(** [testTransaction] (lines 150-213). *)
Definition testTransaction (db : DB) (expectedSpan : nat) : T unit :=
  let query := "INSERT INTO city(name) VALUES('New York')" in
  r <- testTransaction_Begin db expectedSpan;;
  testTransaction_Rollback db expectedSpan r.1;;;
  testTransaction_Exec db expectedSpan query;;;
  ret tt.

(** [AllSQLTests] (lines 60-65). *)
Definition AllSQLTests (db : DB) (expectedSpan : nat) : T unit :=
  testDB db expectedSpan;;;
  testStatement db expectedSpan;;;
  testTransaction db expectedSpan.

(** Modelled from the spec: [tracer.GetTestTracer] is not part of these
    sources; a tracer with nothing buffered and a capturing transport
    with nothing captured. *)
Definition GetTestTracer : T unit :=
  λ w, Some (tt, mkWorld (maps w) (spans w) (next_id w) [] [] (asserted w)).

(** [newDB] (lines 224-239).  The driver is given by its identifier, the
    string [parseDSN] switches on; [log.Fatal] ends the run. *)
Definition newDB (name service driver dsn : string) : T DB :=
  GetTestTracer;;;
  r <- OpenTraced driver dsn service;;
  match r.2 with
  | Some _ => panic
  | None =>
      match r.1 with
      | Some db => ret (mkDB db name service)
      | None => panic
      end
  end.

End Script.

(** ** Statements about a run of the script *)

(** The metadata the specification gives a span of a traced handle
    (section 4.3): the tags of the Connection Descriptor, together with the
    statement-text tag when the operation carries a statement. *)
Definition span_meta (statement_tag_wins : bool) (descriptor_tags : gmap string string)
    (text : option string) : gmap string string :=
  match text with
  | Some q =>
      match descriptor_tags !! sql_query_key with
      | Some _ =>
          if statement_tag_wins then <[sql_query_key := q]> descriptor_tags
          else descriptor_tags
      | None => <[sql_query_key := q]> descriptor_tags
      end
  | None => descriptor_tags
  end.

(** Trace identifier and parent reference of a span started under the
    context [ctx] with the fresh identifier [id]. *)
Definition lineage (w : World) (ctx : option nat) (id : N) : option (N * option N) :=
  match ctx with
  | Some p => (λ parent, (TraceID parent, Some (SpanID parent))) <$> spans w !! p
  | None => Some (id, None)
  end.

(** A world in which a step of the script can run: the Connection
    Descriptor of the handle and the expected span with its metadata map
    are allocated, and nothing is buffered in the tracer or held by the
    transport, as after the flush that ends every step. *)
Definition ready (db : TracedHandle) (expectedSpan : nat) (w : World) : Prop :=
  descriptor db < length (maps w) ∧
  (∃ e, spans w !! expectedSpan = Some e ∧ Meta e < length (maps w)) ∧
  buffer w = [] ∧
  captured w = [].

(** What a step that expects one span leaves behind, from the world [w]
    before the step to the world [w'] after it: one trace of one span was
    captured; that span is new, of type [ty], with resource [resource]
    and the metadata of the specification; the expected span is the same
    object as before, its metadata map lost the statement-text key if the
    step carries a statement and is unchanged otherwise; no other map and
    no other span that existed before the step changed; the world is ready
    for the next step; and five assertions were made, the last of which
    compares the metadata of expected and captured span. *)
Definition one_span_step (statement_tag_wins : bool) (db : TracedHandle)
    (expectedSpan : nat) (ty : OpType) (resource : string) (text : option string)
    (w : World) (traces : list (list nat)) (w' : World) : Prop :=
  ∃ a s e,
    traces = [[a]] ∧
    spans w !! a = None ∧
    spans w' !! a = Some s ∧
    s = mkSpan ty resource (Meta s) (SpanID s) (SpanID s) None ∧
    maps w !! Meta s = None ∧
    Store.get (maps w') (Meta s)
      = span_meta statement_tag_wins (Store.get (maps w) (descriptor db)) text ∧
    spans w !! expectedSpan = Some e ∧
    spans w' !! expectedSpan = Some e ∧
    Store.get (maps w') (Meta e)
      = match text with
        | Some _ => delete sql_query_key (Store.get (maps w) (Meta e))
        | None => Store.get (maps w) (Meta e)
        end ∧
    (∀ l, l < length (maps w) → l ≠ Meta e → maps w' !! l = maps w !! l) ∧
    (∀ p, p < length (spans w) → spans w' !! p = spans w !! p) ∧
    ready db expectedSpan w' ∧
    asserted w' = asserted w ++
      [true; true; true; true;
       bool_decide (match text with
                    | Some q => <[sql_query_key := q]> (Store.get (maps w) (Meta e))
                    | None => Store.get (maps w) (Meta e)
                    end
                    = span_meta statement_tag_wins
                        (Store.get (maps w) (descriptor db)) text)].

(** What the last step of [testTransaction] leaves behind: one trace of
    three spans was captured, begin, exec and commit in that order, all
    new, all children of the new parent span and in its trace, with the
    resources and metadata of the specification; the expected span is the
    same object as before and its metadata map lost the statement-text
    key; no other map and no other span that existed before the step
    changed; the world is ready for a next step; nine assertions were
    made, of which the seventh and the ninth compare the metadata of the
    expected span with that of the exec and of the commit span. *)
Definition transaction_step (statement_tag_wins : bool) (db : TracedHandle)
    (expectedSpan : nat) (query : string)
    (w : World) (result : nat * list (list nat)) (w' : World) : Prop :=
  ∃ b x c P sb sx sc e,
    result.2 = [[b; x; c]] ∧
    spans w !! result.1 = None ∧
    spans w !! b = None ∧ spans w !! x = None ∧ spans w !! c = None ∧
    spans w' !! result.1 = Some P ∧
    P = mkSpan (Custom "test.parent") "parent" (Meta P) (SpanID P) (SpanID P) None ∧
    spans w' !! b = Some sb ∧
    sb = mkSpan TransactionBegin "Begin" (Meta sb) (SpanID sb)
                (TraceID P) (Some (SpanID P)) ∧
    spans w' !! x = Some sx ∧
    sx = mkSpan Execute query (Meta sx) (SpanID sx) (TraceID P) (Some (SpanID P)) ∧
    spans w' !! c = Some sc ∧
    sc = mkSpan TransactionCommit "Commit" (Meta sc) (SpanID sc)
                (TraceID P) (Some (SpanID P)) ∧
    Store.get (maps w') (Meta sb) = Store.get (maps w) (descriptor db) ∧
    Store.get (maps w') (Meta sx)
      = span_meta statement_tag_wins (Store.get (maps w) (descriptor db))
                  (Some query) ∧
    Store.get (maps w') (Meta sc) = Store.get (maps w) (descriptor db) ∧
    spans w !! expectedSpan = Some e ∧
    spans w' !! expectedSpan = Some e ∧
    Store.get (maps w') (Meta e)
      = delete sql_query_key (Store.get (maps w) (Meta e)) ∧
    (∀ l, l < length (maps w) → l ≠ Meta e → maps w' !! l = maps w !! l) ∧
    (∀ p, p < length (spans w) → spans w' !! p = spans w !! p) ∧
    ready db expectedSpan w' ∧
    asserted w' = asserted w ++
      [true; true; true; true; true; true;
       bool_decide (<[sql_query_key := query]> (Store.get (maps w) (Meta e))
                    = span_meta statement_tag_wins
                        (Store.get (maps w) (descriptor db)) (Some query));
       true;
       bool_decide (delete sql_query_key (Store.get (maps w) (Meta e))
                    = Store.get (maps w) (descriptor db))].

(** The span at [a] was produced between [w] and [w']: it did not exist
    in [w], and in [w'] it has type [ty] and resource [resource]. *)
Definition produced (w w' : World) (a : nat) (ty : OpType) (resource : string)
  : Prop :=
  spans w !! a = None ∧
  ∃ s, spans w' !! a = Some s ∧ SpanType s = ty ∧ Resource s = resource.

(** The span at [a] of [w'] is a child of the span at [p] in the same
    trace. *)
Definition child_of (w' : World) (a p : nat) : Prop :=
  ∃ s parent,
    spans w' !! a = Some s ∧ spans w' !! p = Some parent ∧
    TraceID s = TraceID parent ∧ ParentID s = Some (SpanID parent).

(** One call on the traced handle took [w] to [w']: exactly one span was
    created and closed, the span [s], and nothing was flushed. *)
Definition one_span_closed (w w' : World) (s : Span) : Prop :=
  spans w' = spans w ++ [s] ∧
  buffer w' = buffer w ++ [length (spans w)] ∧
  captured w' = captured w.

(** The expected span fits the handle: the world is ready for a step, the
    metadata of the expected span are the tags of the Connection
    Descriptor, and these do not include the statement-text key. *)
Definition fits (db : TracedHandle) (expectedSpan : nat) (w : World) : Prop :=
  ready db expectedSpan w ∧
  ∃ e, spans w !! expectedSpan = Some e ∧
       Store.get (maps w) (Meta e) = Store.get (maps w) (descriptor db) ∧
       Store.get (maps w) (descriptor db) !! sql_query_key = None.

(** The world a traced operation without ambient parent leaves behind. *)
Definition after_root_op (statement_tag_wins : bool) (db : TracedHandle)
    (ty : OpType) (resource : string) (text : option string) (w : World)
  : World :=
  mkWorld (maps w ++ [span_meta statement_tag_wins
                                (Store.get (maps w) (descriptor db)) text])
          (spans w ++ [mkSpan ty resource (length (maps w)) (next_id w)
                              (next_id w) None])
          (N.succ (next_id w))
          (buffer w ++ [length (spans w)])
          (captured w) (asserted w).

(** ** The common shape of the steps of the script

    Every step that expects one span ends in the same lines: assert a nil
    error, flush, take the captured traces, assert one trace of one span,
    copy the expected span, set its resource (and, for a step with a
    statement, its statement-text tag), compare with the captured span
    (and delete the statement-text key of the expected span). *)

Section StepShape.

Variable CopySpan_shares_meta : bool.

Definition expect_one_labelled {A} (result : list (list nat) → A)
    (expectedSpan : nat) (label : string) (err : option string) : T A :=
  assert_Equal_nil err;;;
  FlushTraces;;;
  traces <- Transport_Traces;;
  assert_Len traces 1;;;
  spans <- index traces 0;;
  assert_Len spans 1;;;
  actualSpan <- index spans 0;;
  copy <- CopySpan CopySpan_shares_meta expectedSpan;;
  set_Resource copy label;;;
  CompareSpan copy actualSpan;;;
  ret (result traces).

Definition expect_one_statement {A} (result : list (list nat) → A)
    (expectedSpan : nat) (query : string) (err : option string) : T A :=
  assert_Equal_nil err;;;
  FlushTraces;;;
  traces <- Transport_Traces;;
  assert_Len traces 1;;;
  spans <- index traces 0;;
  assert_Len spans 1;;;
  actualSpan <- index spans 0;;
  copy <- CopySpan CopySpan_shares_meta expectedSpan;;
  set_Resource copy query;;;
  SetMeta copy sql_query_key query;;;
  CompareSpan copy actualSpan;;;
  delete_statement_text expectedSpan;;;
  ret (result traces).

End StepShape.

(** ** The script over arbitrary callees

    The traced handle, the tracer, the transport and the helpers of
    package [tracer] are not part of these sources.  What the script does
    by itself (the order of its calls, its assertions, its indexing of the
    captured traces, its writes to the expected span) can be read with
    every one of them left open: a callee is any computation on the
    world, with any result. *)

(** [const debug = true] (line 58). *)
Definition debug : bool := true.

(** [defer f()]: the deferred call runs when the surrounding function
    returns; a panic of the body stays a panic. *)
Definition defer {A} (deferred : T unit) (body : T A) : T A :=
  a <- body;; deferred;;; ret a.

Module Abstract.

(** The functions the script calls, and the types of what they return:
    the rows of a query, a prepared statement, a transaction and a
    calling context. *)
Record Callees := mkCallees {
  Rows : Type;
  Stmt : Type;
  Tx : Type;
  Context : Type;
  Ping : T (option string);
  Query : string → T (Rows * option string);
  Rows_Close : Rows → T unit;
  Prepare : string → T (Stmt * option string);
  Stmt_Exec : Stmt → list string → T (option string);
  Begin : T (Tx * option string);
  BeginTx : Context → T (Tx * option string);
  Tx_Rollback : Tx → T (option string);
  Tx_ExecContext : Tx → Context → string → T (option string);
  Tx_Commit : Tx → T (option string);
  NewRootSpan : string → string → string → T nat;
  Background : Context;
  ContextWithSpan : Context → nat → Context;
  FlushTraces : T unit;
  Traces : T (list (list nat));
  CopySpan : nat → T nat;
  SetMeta : nat → string → string → T unit;
  CompareSpan : nat → nat → list bool → T unit
}.

Section Script.

Variable c : Callees.

(** [testDB] (lines 67-103). *)
Definition testDB (db : DB) (expectedSpan : nat) : T unit :=
  let query := "select id, name, population from city limit 5" in
  err <- Ping c;;
  assert_Equal_nil err;;;
  FlushTraces c;;;
  traces <- Traces c;;
  assert_Len traces 1;;;
  spans <- index traces 0;;
  assert_Len spans 1;;;
  actualSpan <- index spans 0;;
  pingSpan <- CopySpan c expectedSpan;;
  set_Resource pingSpan "Ping";;;
  CompareSpan c pingSpan actualSpan [debug];;;
  r <- Query c query;;
  defer (Rows_Close c r.1) (
    assert_Equal_nil r.2;;;
    FlushTraces c;;;
    traces <- Traces c;;
    assert_Len traces 1;;;
    spans <- index traces 0;;
    assert_Len spans 1;;;
    actualSpan <- index spans 0;;
    querySpan <- CopySpan c expectedSpan;;
    set_Resource querySpan query;;;
    SetMeta c querySpan sql_query_key query;;;
    CompareSpan c querySpan actualSpan [];;;
    delete_statement_text expectedSpan).

(** [testStatement] (lines 105-148). *)
Definition testStatement (db : DB) (expectedSpan : nat) : T unit :=
  let query := statement_query db in
  r <- Prepare c query;;
  let stmt := r.1 in
  assert_Equal_nil r.2;;;
  FlushTraces c;;;
  traces <- Traces c;;
  assert_Len traces 1;;;
  spans <- index traces 0;;
  assert_Len spans 1;;;
  actualSpan <- index spans 0;;
  prepareSpan <- CopySpan c expectedSpan;;
  set_Resource prepareSpan query;;;
  SetMeta c prepareSpan sql_query_key query;;;
  CompareSpan c prepareSpan actualSpan [];;;
  delete_statement_text expectedSpan;;;
  err2 <- Stmt_Exec c stmt ["New York"];;
  assert_Equal_nil err2;;;
  FlushTraces c;;;
  traces <- Traces c;;
  assert_Len traces 1;;;
  spans <- index traces 0;;
  assert_Len spans 1;;;
  actualSpan <- index spans 0;;
  execSpan <- CopySpan c expectedSpan;;
  set_Resource execSpan query;;;
  SetMeta c execSpan sql_query_key query;;;
  CompareSpan c execSpan actualSpan [];;;
  delete_statement_text expectedSpan.

(** [testTransaction] (lines 150-213). *)
Definition testTransaction (db : DB) (expectedSpan : nat) : T unit :=
  let query := "INSERT INTO city(name) VALUES('New York')" in
  r <- Begin c;;
  let tx := r.1 in
  assert_Equal_nil r.2;;;
  FlushTraces c;;;
  traces <- Traces c;;
  assert_Len traces 1;;;
  spans <- index traces 0;;
  assert_Len spans 1;;;
  actualSpan <- index spans 0;;
  beginSpan <- CopySpan c expectedSpan;;
  set_Resource beginSpan "Begin";;;
  CompareSpan c beginSpan actualSpan [];;;
  err <- Tx_Rollback c tx;;
  assert_Equal_nil err;;;
  FlushTraces c;;;
  traces <- Traces c;;
  assert_Len traces 1;;;
  spans <- index traces 0;;
  assert_Len spans 1;;;
  actualSpan <- index spans 0;;
  rollbackSpan <- CopySpan c expectedSpan;;
  set_Resource rollbackSpan "Rollback";;;
  CompareSpan c rollbackSpan actualSpan [];;;
  parentSpan <- NewRootSpan c "test.parent" "test" "parent";;
  let ctx := ContextWithSpan c (Background c) parentSpan in
  r <- BeginTx c ctx;;
  let tx := r.1 in
  assert_Equal_nil r.2;;;
  err <- Tx_ExecContext c tx ctx query;;
  assert_Equal_nil err;;;
  err <- Tx_Commit c tx;;
  assert_Equal_nil err;;;
  FlushTraces c;;;
  traces <- Traces c;;
  assert_Len traces 1;;;
  spans <- index traces 0;;
  assert_Len spans 3;;;
  actualSpan <- index spans 1;;
  execSpan <- CopySpan c expectedSpan;;
  set_Resource execSpan query;;;
  SetMeta c execSpan sql_query_key query;;;
  CompareSpan c execSpan actualSpan [];;;
  delete_statement_text expectedSpan;;;
  actualSpan <- index spans 2;;
  commitSpan <- CopySpan c expectedSpan;;
  set_Resource commitSpan "Commit";;;
  CompareSpan c commitSpan actualSpan [].

(** [AllSQLTests] (lines 60-65). *)
Definition AllSQLTests (db : DB) (expectedSpan : nat) : T unit :=
  testDB db expectedSpan;;;
  testStatement db expectedSpan;;;
  testTransaction db expectedSpan.

End Script.

End Abstract.

(** Modelled from the spec: the traced handle, the tracer and the
    transport defined above, taken as the callees of the script.  The rows
    of a query carry nothing and closing them does nothing. *)
Definition modelled (statement_tag_wins CopySpan_shares_meta : bool)
    (db : TracedHandle) : Abstract.Callees :=
  {| Abstract.Rows := unit;
     Abstract.Stmt := Stmt;
     Abstract.Tx := Tx;
     Abstract.Context := option nat;
     Abstract.Ping := DB_Ping statement_tag_wins db;
     Abstract.Query :=
       λ q, err <- DB_Query statement_tag_wins db q;; ret (tt, err);
     Abstract.Rows_Close := λ _, ret tt;
     Abstract.Prepare := DB_Prepare statement_tag_wins db;
     Abstract.Stmt_Exec := Stmt_Exec statement_tag_wins;
     Abstract.Begin := DB_Begin statement_tag_wins db;
     Abstract.BeginTx := DB_BeginTx statement_tag_wins db;
     Abstract.Tx_Rollback := Tx_Rollback statement_tag_wins;
     Abstract.Tx_ExecContext := Tx_ExecContext statement_tag_wins;
     Abstract.Tx_Commit := Tx_Commit statement_tag_wins;
     Abstract.NewRootSpan := NewRootSpan;
     Abstract.Background := Background;
     Abstract.ContextWithSpan := ContextWithSpan;
     Abstract.FlushTraces := FlushTraces;
     Abstract.Traces := Transport_Traces;
     Abstract.CopySpan := CopySpan CopySpan_shares_meta;
     Abstract.SetMeta := SetMeta;
     Abstract.CompareSpan := λ e a _, CompareSpan e a |}.

(** The callees [c] with another transport: [traces] is what a call of
    [Transport.Traces] does. *)
Definition with_Traces (c : Abstract.Callees) (traces : T (list (list nat)))
  : Abstract.Callees :=
  {| Abstract.Rows := Abstract.Rows c;
     Abstract.Stmt := Abstract.Stmt c;
     Abstract.Tx := Abstract.Tx c;
     Abstract.Context := Abstract.Context c;
     Abstract.Ping := Abstract.Ping c;
     Abstract.Query := Abstract.Query c;
     Abstract.Rows_Close := Abstract.Rows_Close c;
     Abstract.Prepare := Abstract.Prepare c;
     Abstract.Stmt_Exec := Abstract.Stmt_Exec c;
     Abstract.Begin := Abstract.Begin c;
     Abstract.BeginTx := Abstract.BeginTx c;
     Abstract.Tx_Rollback := Abstract.Tx_Rollback c;
     Abstract.Tx_ExecContext := Abstract.Tx_ExecContext c;
     Abstract.Tx_Commit := Abstract.Tx_Commit c;
     Abstract.NewRootSpan := Abstract.NewRootSpan c;
     Abstract.Background := Abstract.Background c;
     Abstract.ContextWithSpan := Abstract.ContextWithSpan c;
     Abstract.FlushTraces := Abstract.FlushTraces c;
     Abstract.Traces := traces;
     Abstract.CopySpan := Abstract.CopySpan c;
     Abstract.SetMeta := Abstract.SetMeta c;
     Abstract.CompareSpan := Abstract.CompareSpan c |}.

(** The computation [m] leaves the span object at [e] as it is, if there
    is one, and what it returns satisfies [Q]. *)
Definition keeps (e : nat) {A} (m : T A) (Q : A → Prop) : Prop :=
  ∀ w a w' s,
    m w = Some (a, w') → spans w !! e = Some s → spans w' !! e = Some s ∧ Q a.

(** No callee writes to the span object at [e], and [CopySpan] returns
    another object. *)
Record LeaveAlone (c : Abstract.Callees) (e : nat) : Prop := mkLeaveAlone {
  la_Ping : keeps e (Abstract.Ping c) (λ _, True);
  la_Query : ∀ q, keeps e (Abstract.Query c q) (λ _, True);
  la_Rows_Close : ∀ r, keeps e (Abstract.Rows_Close c r) (λ _, True);
  la_Prepare : ∀ q, keeps e (Abstract.Prepare c q) (λ _, True);
  la_Stmt_Exec : ∀ s args, keeps e (Abstract.Stmt_Exec c s args) (λ _, True);
  la_Begin : keeps e (Abstract.Begin c) (λ _, True);
  la_BeginTx : ∀ ctx, keeps e (Abstract.BeginTx c ctx) (λ _, True);
  la_Tx_Rollback : ∀ tx, keeps e (Abstract.Tx_Rollback c tx) (λ _, True);
  la_Tx_ExecContext :
    ∀ tx ctx q, keeps e (Abstract.Tx_ExecContext c tx ctx q) (λ _, True);
  la_Tx_Commit : ∀ tx, keeps e (Abstract.Tx_Commit c tx) (λ _, True);
  la_NewRootSpan :
    ∀ n s r, keeps e (Abstract.NewRootSpan c n s r) (λ _, True);
  la_FlushTraces : keeps e (Abstract.FlushTraces c) (λ _, True);
  la_Traces : keeps e (Abstract.Traces c) (λ _, True);
  la_CopySpan : ∀ p, keeps e (Abstract.CopySpan c p) (λ copy, copy ≠ e);
  la_SetMeta : ∀ p k v, keeps e (Abstract.SetMeta c p k v) (λ _, True);
  la_CompareSpan :
    ∀ p a dbg, keeps e (Abstract.CompareSpan c p a dbg) (λ _, True)
}.

(** ** A concrete handle and world

    The end-to-end scenario of the specification: the raw attributes of
    the DSN [dbname=city user=reader host=localhost port=5432], a parser
    that returns them for that DSN and an error for any other, the handle
    [newDB] opens from it in an empty world, and the world after the
    caller has allocated an expected span with the handle's tags. *)

Definition example_dsn : string :=
  "dbname=city user=reader host=localhost port=5432".

Definition example_raw : gmap string string :=
  list_to_map [("dbname", "city"); ("user", "reader");
               ("host", "localhost"); ("port", "5432")].

Definition example_tags : gmap string string :=
  list_to_map [("db.name", "city"); ("db.user", "reader");
               ("out.host", "localhost"); ("out.port", "5432")].

Definition example_parser (dsn : string)
  : option (gmap string string) * option string :=
  if String.eqb dsn example_dsn then (Some example_raw, None)
  else (None, Some "invalid dsn").

Definition empty_world : World := mkWorld [] [] 1 [] [] [].

Definition example_db : DB := mkDB (mkHandle 1) "postgres" "city-service".

Definition opened_world : World :=
  mkWorld [example_raw; example_tags] [] 1 [] [] [].

Definition example_world : World :=
  mkWorld [example_raw; example_tags; example_tags]
          [mkSpan Query "" 2 0 0 None] 1 [] [] [].

(** * Proofs *)

(** ** Store lemmas *)

Module StoreFacts.
Import Store.

Implicit Types (h : list (gmap string string)) (c : gmap string string).
Implicit Types (l : nat) (r : option nat).

Lemma get_alloc_new c h : get (h ++ [c]) (length h) = c.
Proof. unfold get. by rewrite lookup_app_r, Nat.sub_diag by lia. Qed.

Lemma get_alloc_old c h l : l ≠ length h → get (h ++ [c]) l = get h l.
Proof.
  intros Hl. unfold get.
  destruct (decide (l < length h)) as [Hlt|Hge].
  - by rewrite lookup_app_l.
  - rewrite !lookup_ge_None_2; [done | lia |].
    rewrite length_app; simpl; lia.
Qed.

Lemma length_alloc c h : length (h ++ [c]) = S (length h).
Proof. rewrite length_app; simpl; lia. Qed.

Lemma length_put l c h : length (put l c h) = length h.
Proof. apply length_insert. Qed.

Lemma get_put_same l c h : l < length h → get (put l c h) l = c.
Proof. intros Hl. unfold get, put. by rewrite list_lookup_insert_eq. Qed.

Lemma lookup_put_other l l' c h : l ≠ l' → put l c h !! l' = h !! l'.
Proof. intros Hne. unfold put. by rewrite list_lookup_insert_ne. Qed.

Lemma get_put_other l l' c h : l ≠ l' → get (put l c h) l' = get h l'.
Proof. intros Hne. unfold get. by rewrite lookup_put_other. Qed.

Lemma length_set_key l k v h : length (set_key l k v h) = length h.
Proof. apply length_put. Qed.

Lemma get_set_key_same l k v h :
  l < length h → get (set_key l k v h) l = <[k := v]> (get h l).
Proof. apply get_put_same. Qed.

Lemma lookup_set_key_other l l' k v h :
  l ≠ l' → set_key l k v h !! l' = h !! l'.
Proof. apply lookup_put_other. Qed.

(** Reading through a reference that is not allocated yet. *)
Lemma get_dangling h l : length h ≤ l → get h l = ∅.
Proof. intros Hl. unfold get. by rewrite lookup_ge_None_2. Qed.

End StoreFacts.

(** ** Facts about [normalizeKey] *)

(** [normalizeKey] accepts a key exactly when the table has a row for it,
    and then returns that row's canonical key. *)
Lemma normalizeKey_table (k ck : string) :
  normalizeKey k = (ck, true) ↔ (k, ck) ∈ tag_key_mapping.
Proof.
  unfold normalizeKey, tag_key_mapping. split.
  - destruct (String.eqb_spec k "user") as [->|_];
      [intros [= <-]; set_solver|].
    destruct (String.eqb_spec k "application_name") as [->|_];
      [intros [= <-]; set_solver|].
    destruct (String.eqb_spec k "dbname") as [->|_];
      [intros [= <-]; set_solver|].
    destruct (String.eqb_spec k "host") as [->|_];
      [intros [= <-]; set_solver|].
    destruct (String.eqb_spec k "port") as [->|_];
      [intros [= <-]; set_solver|].
    simpl. discriminate.
  - rewrite !elem_of_cons, elem_of_nil.
    intros [[= -> ->]|[[= -> ->]|[[= -> ->]|[[= -> ->]|[[= -> ->]|[]]]]]];
      reflexivity.
Qed.

(** Two accepted raw keys with the same canonical key are the same key. *)
Lemma normalizeKey_inj (k1 k2 ck : string) :
  normalizeKey k1 = (ck, true) → normalizeKey k2 = (ck, true) → k1 = k2.
Proof.
  rewrite !normalizeKey_table. unfold tag_key_mapping.
  rewrite !elem_of_cons, !elem_of_nil. intros H1 H2.
  destruct H1 as [[= -> ->]|[[= -> ->]|[[= -> ->]|[[= -> ->]|[[= -> ->]|[]]]]]];
    destruct H2 as [[= ->]|[[= ->]|[[= ->]|[[= ->]|[[= ->]|[]]]]]];
    reflexivity.
Qed.

(** ** The loop of [normalize] *)

Lemma normalize_entries_cons kv es acc :
  normalize_entries (kv :: es) acc =
  normalize_entries es
    (match normalizeKey kv.1 with
     | (nk, true) => <[nk := kv.2]> acc
     | (_, false) => acc
     end).
Proof. reflexivity. Qed.

(** On entries with pairwise distinct raw keys, a canonical key ends up
    bound to the value of the one raw key that normalises to it, and a
    canonical key that no entry normalises to keeps what it had. *)
Lemma normalize_entries_lookup es acc ck v :
  NoDup es.*1 →
  normalize_entries es acc !! ck = Some v ↔
    (∃ rk, (rk, v) ∈ es ∧ normalizeKey rk = (ck, true)) ∨
    (acc !! ck = Some v ∧
     ∀ rk v', (rk, v') ∈ es → normalizeKey rk ≠ (ck, true)).
Proof.
  revert acc. induction es as [|[k x] es IH]; intros acc Hnd.
  - simpl. split.
    + intros H. right. split; [done|]. intros ?? Hin. by apply elem_of_nil in Hin.
    + intros [(rk & Hin & _)|[H _]]; [by apply elem_of_nil in Hin | done].
  - rewrite fmap_cons in Hnd. apply NoDup_cons in Hnd as [Hk Hnd].
    rewrite normalize_entries_cons, (IH _ Hnd). simpl.
    destruct (normalizeKey k) as [nk [|]] eqn:Hnk.
    + split.
      * intros [(rk & Hin & Hrk)|[Hacc Hnone]].
        { left. exists rk. split; [by apply elem_of_cons; right | done]. }
        destruct (decide (nk = ck)) as [->|Hne].
        { rewrite lookup_insert_eq in Hacc. injection Hacc as ->.
          left. exists k. split; [apply elem_of_cons; by left | done]. }
        rewrite lookup_insert_ne in Hacc by done.
        right. split; [done|]. intros rk v' [[= -> ->]|Hin]%elem_of_cons.
        { rewrite Hnk. congruence. }
        by apply (Hnone rk v').
      * intros [(rk & [[= -> ->]|Hin]%elem_of_cons & Hrk)|[Hacc Hnone]].
        { right. rewrite Hnk in Hrk. injection Hrk as ->. split.
          - apply lookup_insert_eq.
          - intros rk' v' Hin' Hrk'. apply Hk.
            rewrite (normalizeKey_inj _ _ _ Hnk Hrk').
            apply list_elem_of_fmap. by exists (rk', v'). }
        { left. by exists rk. }
        right. split.
        { rewrite lookup_insert_ne; [done|]. intros ->.
          eapply (Hnone k x); [apply elem_of_cons; by left | done]. }
        intros rk v' Hin. apply (Hnone rk v'). apply elem_of_cons; by right.
    + split.
      * intros [(rk & Hin & Hrk)|[Hacc Hnone]].
        { left. exists rk. split; [by apply elem_of_cons; right | done]. }
        right. split; [done|]. intros rk v' [[= -> ->]|Hin]%elem_of_cons.
        { rewrite Hnk. congruence. }
        by apply (Hnone rk v').
      * intros [(rk & [[= -> ->]|Hin]%elem_of_cons & Hrk)|[Hacc Hnone]].
        { congruence. }
        { left. by exists rk. }
        right. split; [done|].
        intros rk v' Hin. apply (Hnone rk v'). apply elem_of_cons; by right.
Qed.

(** The entries of a map, visited in any order, normalise to the image of
    the map under the table. *)
Lemma normalize_entries_order (o : RangeOrder) (raw : gmap string string) ck v :
  normalize_entries (o raw) ∅ !! ck = Some v ↔
  ∃ rk, (rk, ck) ∈ tag_key_mapping ∧ raw !! rk = Some v.
Proof.
  rewrite normalize_entries_lookup.
  - split.
    + intros [(rk & Hin & Hrk)|[Hacc _]]; [|by rewrite lookup_empty in Hacc].
      exists rk. split; [by apply normalizeKey_table|].
      apply elem_of_map_to_list. by rewrite <-(range_entries_perm o raw).
    + intros (rk & Hrow & Hraw). left. exists rk.
      split; [|by apply normalizeKey_table].
      rewrite (range_entries_perm o raw). by apply elem_of_map_to_list.
  - rewrite (range_entries_perm o raw). apply NoDup_fst_map_to_list.
Qed.

Lemma table_image_lookup (raw : gmap string string) ck v :
  table_image raw !! ck = Some v ↔
  ∃ rk, (rk, ck) ∈ tag_key_mapping ∧ raw !! rk = Some v.
Proof.
  unfold table_image.
  assert (Hgen : ∀ rows : list (string * string),
    NoDup rows.*2 →
    foldr (λ row acc, match raw !! row.1 with
                      | Some v => <[row.2 := v]> acc
                      | None => acc
                      end) (∅ : gmap string string) rows !! ck = Some v ↔
    ∃ rk, (rk, ck) ∈ rows ∧ raw !! rk = Some v).
  { induction rows as [|[rk0 ck0] rows IH]; intros Hnd.
    - simpl. rewrite lookup_empty. split; [done|].
      intros (rk & Hin & _). by apply elem_of_nil in Hin.
    - rewrite fmap_cons in Hnd. apply NoDup_cons in Hnd as [Hck Hnd].
      specialize (IH Hnd). simpl.
      assert (Hother : ∀ rk, (rk, ck0) ∉ rows).
      { intros rk Hin. apply Hck. apply list_elem_of_fmap. by exists (rk, ck0). }
      destruct (raw !! rk0) as [v0|] eqn:Hraw.
      + destruct (decide (ck0 = ck)) as [->|Hne].
        * rewrite lookup_insert_eq. split.
          -- intros [= ->]. exists rk0. split; [apply elem_of_cons; by left | done].
          -- intros (rk & [[= -> ]|Hin]%elem_of_cons & Hrk); [congruence|].
             by destruct (Hother rk).
        * rewrite lookup_insert_ne by done. rewrite IH. split.
          -- intros (rk & Hin & Hrk). exists rk.
             split; [apply elem_of_cons; by right | done].
          -- intros (rk & [[= -> ->]|Hin]%elem_of_cons & Hrk); [done|].
             by exists rk.
      + rewrite IH. split.
        * intros (rk & Hin & Hrk). exists rk.
          split; [apply elem_of_cons; by right | done].
        * intros (rk & [[= -> ->]|Hin]%elem_of_cons & Hrk); [congruence|].
          by exists rk. }
  apply Hgen. unfold tag_key_mapping. simpl.
  apply (bool_decide_unpack _). by vm_compute.
Qed.

Lemma table_image_empty : table_image ∅ = ∅.
Proof.
  apply map_eq. intros ck. apply option_eq. intros v.
  rewrite table_image_lookup, lookup_empty. split; [|done].
  intros (rk & _ & Hrk). by rewrite lookup_empty in Hrk.
Qed.

(** In any iteration order the loop computes the table image. *)
Lemma normalize_entries_table_image (o : RangeOrder) (raw : gmap string string) :
  normalize_entries (o raw) ∅ = table_image raw.
Proof.
  apply map_eq. intros ck. apply option_eq. intros v.
  by rewrite normalize_entries_order, table_image_lookup.
Qed.

(** ** [normalize] on the store *)

Module NormalizeFacts.
Import Store StoreFacts.

Implicit Types (h : list (gmap string string)) (meta : option nat).

Lemma loop_length m h es :
  length (foldl (normalize_step m) h es) = length h.
Proof.
  revert h. induction es as [|kv es IH]; intros h; [done|]. simpl.
  rewrite IH. unfold normalize_step.
  destruct (normalizeKey kv.1) as [nk [|]]; [apply length_set_key | done].
Qed.

Lemma loop_frame m h es l :
  l ≠ m → foldl (normalize_step m) h es !! l = h !! l.
Proof.
  intros Hne. revert h. induction es as [|kv es IH]; intros h; [done|]. simpl.
  rewrite IH. unfold normalize_step.
  destruct (normalizeKey kv.1) as [nk [|]]; [|done].
  by apply lookup_set_key_other.
Qed.

Lemma loop_get m h es :
  m < length h →
  get (foldl (normalize_step m) h es) m = normalize_entries es (get h m).
Proof.
  revert h. induction es as [|kv es IH]; intros h Hm; [done|]. simpl.
  rewrite IH.
  - unfold normalize_entries at 2. simpl. unfold normalize_step.
    destruct (normalizeKey kv.1) as [nk [|]]; [|done].
    by rewrite get_set_key_same.
  - unfold normalize_step.
    destruct (normalizeKey kv.1) as [nk [|]]; [|done].
    by rewrite length_set_key.
Qed.

(** A map value reads the same before and after [make], whether or not it
    is allocated. *)
Lemma contents_make h (meta : option nat) :
  contents (h ++ [∅]) meta = contents h meta.
Proof.
  destruct meta as [l|]; [|done]. simpl.
  destruct (decide (l = length h)) as [->|Hne].
  - rewrite get_alloc_new. symmetry. by apply get_dangling.
  - by apply get_alloc_old.
Qed.

Section WithOrder.
Variable order : RangeOrder.

Lemma normalize_ref meta h : (normalize order meta h).1 = Some (length h).
Proof. reflexivity. Qed.

Lemma normalize_length meta h :
  length (normalize order meta h).2 = S (length h).
Proof.
  unfold normalize. simpl. rewrite loop_length, length_app. simpl. lia.
Qed.

Lemma normalize_frame meta h l :
  l < length h → (normalize order meta h).2 !! l = h !! l.
Proof.
  intros Hl. unfold normalize. simpl.
  rewrite loop_frame by lia. by rewrite lookup_app_l.
Qed.

Lemma normalize_get meta h :
  get (normalize order meta h).2 (length h) = table_image (contents h meta).
Proof.
  unfold normalize, alloc. cbn [snd].
  rewrite loop_get by (rewrite length_alloc; lia).
  rewrite contents_make, get_alloc_new.
  apply normalize_entries_table_image.
Qed.

Lemma normalize_contents meta h :
  contents (normalize order meta h).2 (normalize order meta h).1
  = table_image (contents h meta).
Proof. rewrite normalize_ref. simpl. apply normalize_get. Qed.

(** The input map reads the same after the call. *)
Lemma normalize_input_unchanged meta h :
  contents (normalize order meta h).2 meta = contents h meta.
Proof.
  destruct meta as [l|]; [|done].
  change (get (normalize order (Some l) h).2 l = get h l).
  destruct (decide (l = length h)) as [->|Hne].
  - rewrite normalize_get, get_dangling by lia.
    simpl. rewrite get_dangling by lia. apply table_image_empty.
  - unfold get. destruct (decide (l < length h)) as [Hl|Hl].
    + by rewrite normalize_frame.
    + rewrite !lookup_ge_None_2; [done | lia |].
      rewrite normalize_length. lia.
Qed.

End WithOrder.

End NormalizeFacts.

(** ** [parseDSN] on the store *)

Module ParseFacts.
Import Store StoreFacts NormalizeFacts.

Implicit Types (h : list (gmap string string)).

Section WithParsers.
Variable order : RangeOrder.
Variable Postgres MySQL : string → option (gmap string string) * option string.

(** [parseDSN] is the selected parser followed by [normalize]. *)
Lemma parseDSN_unfold driverType dsn h :
  parseDSN order Postgres MySQL driverType dsn h =
  let c := call_parser (parser_result Postgres MySQL driverType dsn) h in
  (((normalize order c.1.1 c.2).1, c.1.2), (normalize order c.1.1 c.2).2).
Proof.
  unfold parseDSN, parser_result.
  destruct (String.eqb driverType "*pq.Driver");
    [|destruct (String.eqb driverType "*mysql.MySQLDriver")].
  - by destruct (call_parser (Postgres dsn) h) as [[meta err] h1].
  - by destruct (call_parser (MySQL dsn) h) as [[meta err] h1].
  - reflexivity.
Qed.

Lemma call_parser_err r h : (call_parser r h).1.2 = r.2.
Proof. unfold call_parser. by destruct r.1. Qed.

Lemma call_parser_contents r h :
  contents (call_parser r h).2 (call_parser r h).1.1 = default ∅ r.1.
Proof.
  unfold call_parser. destruct r.1 as [c|]; [|done]. simpl.
  apply get_alloc_new.
Qed.

Lemma call_parser_extends r h : h `prefix_of` (call_parser r h).2.
Proof.
  unfold call_parser. destruct r.1 as [c|]; simpl; [|done].
  by apply prefix_app_r.
Qed.

Lemma normalize_extends meta h : h `prefix_of` (normalize order meta h).2.
Proof.
  exists (drop (length h) (normalize order meta h).2).
  rewrite <-(take_drop (length h) (normalize order meta h).2) at 1.
  f_equal. apply list_eq. intros i.
  destruct (decide (i < length h)) as [Hi|Hi].
  - rewrite lookup_take_lt by done. by apply normalize_frame.
  - rewrite lookup_take_ge by lia. symmetry. apply lookup_ge_None_2. lia.
Qed.

Lemma parseDSN_err driverType dsn h :
  (parseDSN order Postgres MySQL driverType dsn h).1.2
  = (parser_result Postgres MySQL driverType dsn).2.
Proof. rewrite parseDSN_unfold. simpl. apply call_parser_err. Qed.

Lemma parseDSN_contents driverType dsn h :
  contents (parseDSN order Postgres MySQL driverType dsn h).2
           (parseDSN order Postgres MySQL driverType dsn h).1.1
  = table_image (default ∅ (parser_result Postgres MySQL driverType dsn).1).
Proof.
  rewrite parseDSN_unfold. cbn [fst snd].
  by rewrite normalize_contents, call_parser_contents.
Qed.

Lemma parseDSN_extends driverType dsn h :
  h `prefix_of` (parseDSN order Postgres MySQL driverType dsn h).2.
Proof.
  rewrite parseDSN_unfold. cbn [fst snd].
  etrans; [apply call_parser_extends | apply normalize_extends].
Qed.

End WithParsers.

End ParseFacts.

(** ** Runs of the traced handle and of the script *)

Module ScriptFacts.
Import Store StoreFacts.

(** *** Lists that grow at the end *)

Lemma lookup_new {A} (l : list A) (x : A) i :
  i = length l → (l ++ [x]) !! i = Some x.
Proof. intros ->. by rewrite lookup_app_r, Nat.sub_diag by lia. Qed.

Lemma lookup_old {A} (l : list A) (x : A) i :
  i < length l → (l ++ [x]) !! i = l !! i.
Proof. intros. by rewrite lookup_app_l. Qed.

Lemma lookup_suffix {A} (l l' : list A) j i :
  i = length l + j → (l ++ l') !! i = l' !! j.
Proof. intros ->. rewrite lookup_app_r by lia. f_equal. lia. Qed.

Lemma insert_new {A} (l : list A) (x y : A) i :
  i = length l → <[i := y]> (l ++ [x]) = l ++ [y].
Proof. intros ->. by rewrite insert_app_r_alt, Nat.sub_diag by lia. Qed.

Lemma get_new (h : list (gmap string string)) c l :
  l = length h → get (h ++ [c]) l = c.
Proof. intros ->. apply get_alloc_new. Qed.

Lemma get_suffix (h h' : list (gmap string string)) j i :
  i = length h + j → get (h ++ h') i = default ∅ (h' !! j).
Proof. intros Hi. unfold get. by rewrite (lookup_suffix h h' j). Qed.

Lemma get_prefix (h h' : list (gmap string string)) i :
  i < length h → get (h ++ h') i = get h i.
Proof. intros Hi. unfold get. by rewrite lookup_app_l. Qed.

Lemma put_new (h : list (gmap string string)) c c' l :
  l = length h → put l c' (h ++ [c]) = h ++ [c'].
Proof. intros ->. unfold put. by rewrite insert_app_r_alt, Nat.sub_diag by lia. Qed.

Lemma put_old (h : list (gmap string string)) c c' l :
  l < length h → put l c' (h ++ [c]) = put l c' h ++ [c].
Proof. intros Hl. unfold put. by rewrite insert_app_l. Qed.

Lemma put_put (h : list (gmap string string)) c c' l :
  put l c' (put l c h) = put l c' h.
Proof. apply list_insert_insert_eq. Qed.

(** *** Running the monad *)

Lemma bind_run {A B} (m : T A) (k : A → T B) w a w' :
  m w = Some (a, w') → bind m k w = k a w'.
Proof. intros H. unfold bind. by rewrite H. Qed.

Lemma FlushTraces_run w closed :
  mapM (λ p, (λ s, (TraceID s, p)) <$> spans w !! p) (buffer w) = Some closed →
  FlushTraces w =
  Some (tt, mkWorld (maps w) (spans w) (next_id w) []
                    (captured w ++ group_traces closed) (asserted w)).
Proof. intros H. unfold FlushTraces. by rewrite H. Qed.

(** Closed spans of one trace are grouped into that one trace. *)
Lemma group_traces_acc tid acc ps :
  foldl (λ ts c, add_to_traces c.1 c.2 ts) [(tid, acc)] ((λ p, (tid, p)) <$> ps)
  = [(tid, acc ++ ps)].
Proof.
  revert acc. induction ps as [|p ps IH]; intros acc; simpl.
  - by rewrite app_nil_r.
  - rewrite N.eqb_refl, IH. by rewrite <-app_assoc.
Qed.

Lemma group_traces_same tid p ps :
  group_traces ((λ p, (tid, p)) <$> (p :: ps)) = [p :: ps].
Proof. unfold group_traces. simpl. by rewrite group_traces_acc. Qed.

Lemma group_traces_one tid p : group_traces [(tid, p)] = [[p]].
Proof. apply (group_traces_same tid p []). Qed.

Lemma group_traces_three tid p1 p2 p3 :
  group_traces [(tid, p1); (tid, p2); (tid, p3)] = [[p1; p2; p3]].
Proof. apply (group_traces_same tid p1 [p2; p3]). Qed.

(** *** Symbolic execution of the script

    [step] unfolds the primitives and reduces what is determined; [norm]
    resolves reads and writes in stores that grew at the end; [exec]
    alternates the two, using [He] for the expected span; [flush] runs
    [FlushTraces] on a buffer of spans of one trace. *)

Ltac len :=
  repeat first [rewrite length_app | rewrite length_put | rewrite length_insert];
  cbn [length]; lia.

Ltac norm :=
  repeat first
    [ rewrite length_app
    | rewrite length_put
    | rewrite lookup_new by len
    | rewrite lookup_old by len
    | rewrite insert_new by len
    | rewrite get_new by len
    | rewrite get_alloc_old by len
    | rewrite get_put_same by len
    | rewrite get_put_other by len
    | rewrite put_new by len
    | rewrite put_old by len
    | rewrite put_put
    | progress cbn [length] ].

Ltac index_literal :=
  repeat match goal with
    | |- context [lookup ?i (cons ?x ?l)] =>
        let r := eval cbn [lookup list_lookup] in (lookup i (cons x l)) in
        progress change (lookup i (cons x l)) with r
    end.

Ltac step :=
  unfold bind, ret, panic, load, read_map, fresh_id, alloc_map, on_maps, alloc,
    new_span, set_Resource, index, Finish, assert_that, assert_Equal_nil,
    assert_Len, SetMeta, Transport_Traces, CopySpan, CompareSpan,
    delete_statement_text, set_key, delete_key;
  cbn [maps spans next_id buffer captured asserted fst snd app
       SpanType Resource Meta SpanID TraceID ParentID
       tx_handle tx_parent stmt_handle stmt_query];
  index_literal.

Ltac exec0 := repeat progress (step; norm).

Ltac exec He := repeat progress (step; norm; rewrite ?He).

Ltac flush :=
  (erewrite FlushTraces_run
     by (cbn [buffer spans mapM]; norm; simpl; reflexivity));
  rewrite ?group_traces_one, ?group_traces_three.

Ltac decided :=
  repeat match goal with
    | |- context [@bool_decide ?P ?d] =>
        let H := fresh in
        assert (H : P) by done;
        rewrite (@bool_decide_eq_true_2 P d H); clear H
    end.

Section WithParams.
Variable statement_tag_wins : bool.
Variable CopySpan_shares_meta : bool.

(** One traced operation allocates the metadata and the span, and closes
    the span. *)
Lemma traced_run db ty resource ctx text w tid pid :
  lineage w ctx (next_id w) = Some (tid, pid) →
  traced statement_tag_wins db ty resource ctx text w =
  Some (length (spans w),
        mkWorld (maps w ++ [span_meta statement_tag_wins
                                      (get (maps w) (descriptor db)) text])
                (spans w ++ [mkSpan ty resource (length (maps w)) (next_id w)
                                    tid pid])
                (N.succ (next_id w))
                (buffer w ++ [length (spans w)])
                (captured w) (asserted w)).
Proof.
  intros Hlin. unfold traced, startSpan, attach_statement_text, span_meta.
  destruct ctx as [p|]; simpl in Hlin.
  - destruct (spans w !! p) as [parent|] eqn:Hp; [|done].
    injection Hlin as <- <-.
    destruct text as [q|]; [|by exec Hp].
    exec Hp.
    destruct (get (maps w) (descriptor db) !! sql_query_key) as [old|];
      [destruct statement_tag_wins|]; by exec Hp.
  - injection Hlin as <- <-.
    destruct text as [q|]; [|by exec0].
    exec0.
    destruct (get (maps w) (descriptor db) !! sql_query_key) as [old|];
      [destruct statement_tag_wins|]; by exec0.
Qed.

Lemma traced_root_run db ty resource text w :
  traced statement_tag_wins db ty resource Background text w =
  Some (length (spans w),
        mkWorld (maps w ++ [span_meta statement_tag_wins
                                      (get (maps w) (descriptor db)) text])
                (spans w ++ [mkSpan ty resource (length (maps w)) (next_id w)
                                    (next_id w) None])
                (N.succ (next_id w))
                (buffer w ++ [length (spans w)])
                (captured w) (asserted w)).
Proof. by apply traced_run. Qed.

(** The conjuncts of [one_span_step] in a world given explicitly. *)
Ltac one_span_post e He :=
  eexists _, _, e;
  cbn [maps spans next_id buffer captured asserted];
  (split; [reflexivity|]);
  (split; [apply lookup_ge_None_2; lia|]);
  (split; [by rewrite (lookup_suffix _ _ 0) by lia|]);
  (split; [reflexivity|]);
  cbn [Meta];
  (split; [apply lookup_ge_None_2; lia|]);
  (split; [by rewrite (get_suffix _ _ 0) by len|]);
  (split; [exact He|]);
  (split; [by rewrite lookup_app_l by lia|]);
  (split; [rewrite get_prefix by len; by rewrite ?get_put_same by len|]);
  (split; [intros l Hl Hne; rewrite lookup_app_l by len;
           by rewrite ?lookup_put_other by done|]);
  (split; [intros p Hp; by rewrite lookup_app_l by lia|]);
  (split; [|reflexivity]);
  unfold ready; cbn [maps spans buffer captured];
  (split; [len|]); (split; [|done]); exists e;
  (split; [by rewrite lookup_app_l by lia|len]).

(** The lines of a step that expects one span, after the operation. *)
Lemma expect_one_labelled_spec {A} (f : list (list nat) → A)
    db tmpl ty label w :
  ready db tmpl w →
  ∃ w',
    expect_one_labelled CopySpan_shares_meta f tmpl label None
      (after_root_op statement_tag_wins db ty label None w)
    = Some (f [[length (spans w)]], w') ∧
    one_span_step statement_tag_wins db tmpl ty label None w
                  [[length (spans w)]] w'.
Proof.
  intros (Hd & (e & He & Hm) & Hb & Hc).
  pose proof (lookup_lt_Some _ _ _ He) as Hlt.
  unfold after_root_op, expect_one_labelled. rewrite Hb, Hc. cbn [app].
  destruct CopySpan_shares_meta.
  - eexists. split.
    + exec He. flush. exec He. rewrite <-!app_assoc. cbn [app]. decided.
      reflexivity.
    + one_span_post e He.
  - eexists. split.
    + exec He. flush. exec He. rewrite <-!app_assoc. cbn [app]. decided.
      reflexivity.
    + one_span_post e He.
Qed.

(** The lines of a step that expects one span with a statement, after the
    operation. *)
Lemma expect_one_statement_spec {A} (f : list (list nat) → A)
    db tmpl ty query w :
  ready db tmpl w →
  ∃ w',
    expect_one_statement CopySpan_shares_meta f tmpl query None
      (after_root_op statement_tag_wins db ty query (Some query) w)
    = Some (f [[length (spans w)]], w') ∧
    one_span_step statement_tag_wins db tmpl ty query (Some query) w
                  [[length (spans w)]] w'.
Proof.
  intros (Hd & (e & He & Hm) & Hb & Hc).
  pose proof (lookup_lt_Some _ _ _ He) as Hlt.
  unfold after_root_op, expect_one_statement. rewrite Hb, Hc. cbn [app].
  destruct CopySpan_shares_meta.
  - eexists. split.
    + exec He. flush. exec He. rewrite <-!app_assoc. cbn [app]. decided.
      rewrite ?delete_insert_eq. reflexivity.
    + one_span_post e He.
  - eexists. split.
    + exec He. flush. exec He. rewrite <-!app_assoc. cbn [app]. decided.
      rewrite ?delete_insert_eq. reflexivity.
    + one_span_post e He.
Qed.

(** *** The steps of the script *)

Ltac after_op :=
  erewrite bind_run by (erewrite bind_run by apply traced_root_run; reflexivity).

Lemma testDB_Ping_spec db tmpl w :
  ready (sqlDB db) tmpl w →
  ∃ traces w',
    testDB_Ping statement_tag_wins CopySpan_shares_meta db tmpl w
    = Some (traces, w') ∧
    one_span_step statement_tag_wins (sqlDB db) tmpl ConnectionCheck "Ping"
                  None w traces w'.
Proof.
  intros Hr.
  destruct (expect_one_labelled_spec (λ traces, traces) (sqlDB db) tmpl
              ConnectionCheck "Ping" w Hr) as (w' & Hrun & Hpost).
  eexists _, w'. split; [|exact Hpost].
  unfold testDB_Ping, DB_Ping, DB_PingContext. after_op. exact Hrun.
Qed.

Lemma testDB_Query_spec db tmpl query w :
  ready (sqlDB db) tmpl w →
  ∃ traces w',
    testDB_Query statement_tag_wins CopySpan_shares_meta db tmpl query w
    = Some (traces, w') ∧
    one_span_step statement_tag_wins (sqlDB db) tmpl Query query
                  (Some query) w traces w'.
Proof.
  intros Hr.
  destruct (expect_one_statement_spec (λ traces, traces) (sqlDB db) tmpl
              Query query w Hr) as (w' & Hrun & Hpost).
  eexists _, w'. split; [|exact Hpost].
  unfold testDB_Query, DB_Query, DB_QueryContext. after_op. exact Hrun.
Qed.

Lemma testStatement_Prepare_spec db tmpl query w :
  ready (sqlDB db) tmpl w →
  ∃ traces w',
    testStatement_Prepare statement_tag_wins CopySpan_shares_meta db tmpl
                          query w
    = Some ((mkStmt (sqlDB db) query, traces), w') ∧
    one_span_step statement_tag_wins (sqlDB db) tmpl Prepare query
                  (Some query) w traces w'.
Proof.
  intros Hr.
  destruct (expect_one_statement_spec
              (λ traces, (mkStmt (sqlDB db) query, traces)) (sqlDB db) tmpl
              Prepare query w Hr) as (w' & Hrun & Hpost).
  eexists _, w'. split; [|exact Hpost].
  unfold testStatement_Prepare, DB_Prepare, DB_PrepareContext. after_op.
  exact Hrun.
Qed.

Lemma testStatement_Exec_spec db tmpl stmt w :
  ready (stmt_handle stmt) tmpl w →
  ∃ traces w',
    testStatement_Exec statement_tag_wins CopySpan_shares_meta db tmpl
                       stmt (stmt_query stmt) w
    = Some (traces, w') ∧
    one_span_step statement_tag_wins (stmt_handle stmt) tmpl Execute
                  (stmt_query stmt) (Some (stmt_query stmt)) w traces w'.
Proof.
  intros Hr.
  destruct (expect_one_statement_spec (λ traces, traces) (stmt_handle stmt)
              tmpl Execute (stmt_query stmt) w Hr) as (w' & Hrun & Hpost).
  eexists _, w'. split; [|exact Hpost].
  unfold testStatement_Exec, Stmt_Exec, Stmt_ExecContext. after_op. exact Hrun.
Qed.

Lemma testTransaction_Begin_spec db tmpl w :
  ready (sqlDB db) tmpl w →
  ∃ traces w',
    testTransaction_Begin statement_tag_wins CopySpan_shares_meta db tmpl w
    = Some ((mkTx (sqlDB db) Background, traces), w') ∧
    one_span_step statement_tag_wins (sqlDB db) tmpl TransactionBegin
                  "Begin" None w traces w'.
Proof.
  intros Hr.
  destruct (expect_one_labelled_spec
              (λ traces, (mkTx (sqlDB db) Background, traces)) (sqlDB db) tmpl
              TransactionBegin "Begin" w Hr) as (w' & Hrun & Hpost).
  eexists _, w'. split; [|exact Hpost].
  unfold testTransaction_Begin, DB_Begin, DB_BeginTx. after_op. exact Hrun.
Qed.

Lemma testTransaction_Rollback_spec db tmpl tx w :
  tx_parent tx = Background →
  ready (tx_handle tx) tmpl w →
  ∃ traces w',
    testTransaction_Rollback statement_tag_wins CopySpan_shares_meta db
                             tmpl tx w
    = Some (traces, w') ∧
    one_span_step statement_tag_wins (tx_handle tx) tmpl
                  TransactionRollback "Rollback" None w traces w'.
Proof.
  intros Hroot Hr.
  destruct (expect_one_labelled_spec (λ traces, traces) (tx_handle tx) tmpl
              TransactionRollback "Rollback" w Hr) as (w' & Hrun & Hpost).
  eexists _, w'. split; [|exact Hpost].
  unfold testTransaction_Rollback, Tx_Rollback. rewrite Hroot. after_op.
  exact Hrun.
Qed.

(** The lines that expect a span with a statement (98-102, 126-130,
    143-147, 203-207), whatever the captured span is. *)
Lemma statement_block_run tmpl actual query w e a :
  spans w !! tmpl = Some e →
  Meta e < length (maps w) →
  spans w !! actual = Some a →
  ∃ w',
    (copy <- CopySpan CopySpan_shares_meta tmpl;;
     set_Resource copy query;;;
     SetMeta copy sql_query_key query;;;
     CompareSpan copy actual;;;
     delete_statement_text tmpl) w = Some (tt, w') ∧
    spans w' !! tmpl = Some e ∧
    get (maps w') (Meta e) = delete sql_query_key (get (maps w) (Meta e)) ∧
    (∀ l, l < length (maps w) → l ≠ Meta e → maps w' !! l = maps w !! l) ∧
    (∀ p, p < length (spans w) → spans w' !! p = spans w !! p) ∧
    length (maps w) ≤ length (maps w') ∧
    buffer w' = buffer w ∧ captured w' = captured w.
Proof.
  intros He Hm Ha.
  pose proof (lookup_lt_Some _ _ _ He) as Hlt.
  pose proof (lookup_lt_Some _ _ _ Ha) as Hlta.
  destruct CopySpan_shares_meta.
  - eexists. split.
    + exec He. rewrite Ha. exec He. rewrite ?delete_insert_eq. reflexivity.
    + cbn [maps spans buffer captured].
      split; [by rewrite lookup_app_l|].
      split; [by rewrite get_put_same by len|].
      split; [intros l Hl Hne; by rewrite lookup_put_other|].
      split; [intros p Hp; by rewrite lookup_app_l|].
      split; [len|done].
  - eexists. split.
    + exec He. rewrite Ha. exec He. reflexivity.
    + cbn [maps spans buffer captured].
      split; [by rewrite lookup_app_l|].
      split; [by rewrite get_prefix, get_put_same by len|].
      split; [intros l Hl Hne;
              by rewrite lookup_app_l, lookup_put_other by len|].
      split; [intros p Hp; by rewrite lookup_app_l|].
      split; [len|done].
Qed.

(** The conjuncts of [transaction_step] in a world given explicitly. *)
Ltac transaction_post e He :=
  eexists _, _, _, _, _, _, _, e;
  cbn [fst snd maps spans asserted buffer captured];
  (split; [reflexivity|]);
  do 4 (split; [apply lookup_ge_None_2; lia|]);
  (split; [by rewrite (lookup_suffix _ _ 0) by lia|]);
  (split; [reflexivity|]);
  (split; [by rewrite (lookup_suffix _ _ 1) by lia|]);
  (split; [reflexivity|]);
  (split; [by rewrite (lookup_suffix _ _ 2) by lia|]);
  (split; [reflexivity|]);
  (split; [by rewrite (lookup_suffix _ _ 3) by lia|]);
  (split; [reflexivity|]);
  cbn [Meta];
  (split; [by rewrite (get_suffix _ _ 1) by len|]);
  (split; [by rewrite (get_suffix _ _ 2) by len|]);
  (split; [by rewrite (get_suffix _ _ 3) by len|]);
  (split; [exact He|]);
  (split; [by rewrite lookup_app_l by lia|]);
  (split; [rewrite get_prefix by len; by rewrite get_put_same by len|]);
  (split; [intros l Hl Hne; rewrite lookup_app_l by len;
           by rewrite lookup_put_other by done|]);
  (split; [intros p Hp; by rewrite lookup_app_l by lia|]);
  (split; [|reflexivity]);
  unfold ready; cbn [maps spans buffer captured];
  (split; [len|]); (split; [|done]); exists e;
  (split; [by rewrite lookup_app_l by lia|len]).

Lemma testTransaction_Exec_spec db tmpl query w :
  ready (sqlDB db) tmpl w →
  ∃ result w',
    testTransaction_Exec statement_tag_wins CopySpan_shares_meta db tmpl
                         query w
    = Some (result, w') ∧
    transaction_step statement_tag_wins (sqlDB db) tmpl query w result w'.
Proof.
  intros (Hd & (e & He & Hm) & Hb & Hc).
  pose proof (lookup_lt_Some _ _ _ He) as Hlt.
  unfold testTransaction_Exec, NewRootSpan, startSpan, DB_BeginTx,
    Tx_ExecContext, Tx_Commit, ContextWithSpan, Background.
  destruct CopySpan_shares_meta.
  - eexists _, _. split.
    + exec He.
      do 3 (erewrite traced_run by (cbn [lineage spans]; norm; reflexivity);
            exec He).
      rewrite Hb, Hc. cbn [app]. flush. exec He.
      rewrite <-!app_assoc. cbn [app]. decided.
      rewrite ?delete_insert_eq. reflexivity.
    + transaction_post e He.
  - eexists _, _. split.
    + exec He.
      do 3 (erewrite traced_run by (cbn [lineage spans]; norm; reflexivity);
            exec He).
      rewrite Hb, Hc. cbn [app]. flush. exec He.
      rewrite <-!app_assoc. cbn [app]. decided.
      rewrite ?delete_insert_eq. reflexivity.
    + transaction_post e He.
Qed.

End WithParams.
End ScriptFacts.


(** ** The Metadata Normalizer *)

(** C1. For every raw attribute map (nil or not, wherever it lives in the
    store, whatever order [range] visits it in), the map [normalize]
    returns has exactly the canonical keys of the table rows whose raw
    attribute is present in the input, each bound to that attribute's
    value unchanged, and no other key: an entry [ck := v] is in the result
    if and only if some row [(rk, ck)] of the table has [rk := v] in the
    input.  In particular the result is the table image of the input. *)
Theorem normalize_exactly_table_rows (order : RangeOrder) (meta : option nat)
    (h : list (gmap string string)) :
  let out := Store.contents (normalize order meta h).2 (normalize order meta h).1 in
  out = table_image (Store.contents h meta) ∧
  ∀ ck v, out !! ck = Some v ↔
          ∃ rk, (rk, ck) ∈ tag_key_mapping ∧ Store.contents h meta !! rk = Some v.
Proof.
  cbn zeta. rewrite NormalizeFacts.normalize_contents. split; [done|].
  intros ck v. apply table_image_lookup.
Qed.

(** C4. For a driver identifier other than the two supported ones and any
    DSN, [parseDSN] returns a map that is not nil and has no entries, and
    a nil error. *)
Theorem parseDSN_unsupported_driver (order : RangeOrder)
    (Postgres MySQL : string → option (gmap string string) * option string)
    (driverType dsn : string) (h : list (gmap string string)) :
  driverType ≠ "*pq.Driver" →
  driverType ≠ "*mysql.MySQLDriver" →
  let r := parseDSN order Postgres MySQL driverType dsn h in
  (∃ m, r.1.1 = Some m) ∧ Store.contents r.2 r.1.1 = ∅ ∧ r.1.2 = None.
Proof.
  intros Hpq Hmy. cbn zeta.
  assert (Hres : parser_result Postgres MySQL driverType dsn = (None, None)).
  { unfold parser_result.
    destruct (String.eqb_spec driverType "*pq.Driver"); [done|].
    by destruct (String.eqb_spec driverType "*mysql.MySQLDriver"). }
  split; [|split].
  - rewrite ParseFacts.parseDSN_unfold. simpl. eauto.
  - rewrite ParseFacts.parseDSN_contents, Hres. apply table_image_empty.
  - by rewrite ParseFacts.parseDSN_err, Hres.
Qed.

(** An unsupported driver at a concrete DSN. *)
Lemma parseDSN_unsupported_driver_witness :
  let r := parseDSN canonical_order (λ _, (None, None)) (λ _, (None, None))
                    "sqlite3" "file:city.db" [] in
  (∃ m, r.1.1 = Some m) ∧ Store.contents r.2 r.1.1 = ∅ ∧ r.1.2 = None.
Proof. apply parseDSN_unsupported_driver; discriminate. Defined.

(** C7. The normaliser is a pure function.  Two calls of [normalize] on
    maps with equal entries return maps with equal entries, in whatever
    stores the calls run and whatever orders [range] takes; two calls of
    [parseDSN] on the same driver identifier and DSN return maps with
    equal entries and equal errors, likewise; and a call changes no map
    that existed before it, the input map among them: the store after the
    call is the store before it followed by the new maps. *)
Theorem normalizer_is_pure (o1 o2 : RangeOrder)
    (Postgres MySQL : string → option (gmap string string) * option string)
    (meta1 meta2 : option nat) (driverType dsn : string)
    (h1 h2 : list (gmap string string)) :
  Store.contents h1 meta1 = Store.contents h2 meta2 →
  let n1 := normalize o1 meta1 h1 in
  let n2 := normalize o2 meta2 h2 in
  let p1 := parseDSN o1 Postgres MySQL driverType dsn h1 in
  let p2 := parseDSN o2 Postgres MySQL driverType dsn h2 in
  Store.contents n1.2 n1.1 = Store.contents n2.2 n2.1 ∧
  h1 `prefix_of` n1.2 ∧
  Store.contents n1.2 meta1 = Store.contents h1 meta1 ∧
  Store.contents p1.2 p1.1.1 = Store.contents p2.2 p2.1.1 ∧
  p1.1.2 = p2.1.2 ∧
  h1 `prefix_of` p1.2.
Proof.
  intros Heq. cbn zeta. repeat split.
  - by rewrite !NormalizeFacts.normalize_contents, Heq.
  - apply ParseFacts.normalize_extends.
  - apply NormalizeFacts.normalize_input_unchanged.
  - by rewrite !ParseFacts.parseDSN_contents.
  - by rewrite !ParseFacts.parseDSN_err.
  - apply ParseFacts.parseDSN_extends.
Qed.

(** Two calls on the same entries, at different addresses of different
    stores and in opposite iteration orders. *)
Lemma normalizer_is_pure_witness :
  let raw : gmap string string := <["user" := "reader"]> {["sslmode" := "disable"]} in
  let P : string → option (gmap string string) * option string :=
    λ _, (Some raw, None) in
  let n1 := normalize canonical_order (Some 0) [raw] in
  let n2 := normalize reverse_order (Some 1) [∅; raw] in
  let p1 := parseDSN canonical_order P P "*pq.Driver" "user=reader" [raw] in
  let p2 := parseDSN reverse_order P P "*pq.Driver" "user=reader" [∅; raw] in
  Store.contents n1.2 n1.1 = Store.contents n2.2 n2.1 ∧
  [raw] `prefix_of` n1.2 ∧
  Store.contents n1.2 (Some 0) = Store.contents [raw] (Some 0) ∧
  Store.contents p1.2 p1.1.1 = Store.contents p2.2 p2.1.1 ∧
  p1.1.2 = p2.1.2 ∧
  [raw] `prefix_of` p1.2.
Proof.
  intros raw P.
  apply (normalizer_is_pure canonical_order reverse_order P P (Some 0) (Some 1)
           "*pq.Driver" "user=reader" [raw] [∅; raw]).
  reflexivity.
Defined.

(** C8. [normalizeKey] accepts exactly the five raw attributes user,
    application_name, dbname, host and port, gives each of them one
    canonical key, and the five canonical keys are pairwise distinct: two
    accepted raw attributes with the same canonical key are the same
    attribute.  Hence, for any input map, two accepted raw attributes of
    the input collide on a canonical key only if they are the same
    attribute, and the map [normalize] returns binds the canonical key of
    each to the value of its own raw attribute: neither overwrites the
    other. *)
Theorem normalizeKey_injective_no_collision (order : RangeOrder)
    (meta : option nat) (h : list (gmap string string))
    (k1 k2 ck1 ck2 v1 v2 : string) :
  normalizeKey k1 = (ck1, true) →
  normalizeKey k2 = (ck2, true) →
  Store.contents h meta !! k1 = Some v1 →
  Store.contents h meta !! k2 = Some v2 →
  let accepted := ["user"; "application_name"; "dbname"; "host"; "port"] in
  let out := Store.contents (normalize order meta h).2 (normalize order meta h).1 in
  (∀ k, (normalizeKey k).2 = true ↔ k ∈ accepted) ∧
  NoDup ((λ k, (normalizeKey k).1) <$> accepted) ∧
  (ck1 = ck2 ↔ k1 = k2) ∧
  out !! ck1 = Some v1 ∧ out !! ck2 = Some v2.
Proof.
  intros Hk1 Hk2 Hv1 Hv2. cbn zeta.
  rewrite NormalizeFacts.normalize_contents.
  split; [|split; [|split; [split|split]]].
  - intros k. split.
    + intros Hacc. destruct (normalizeKey k) as [ck b] eqn:Hk.
      simpl in Hacc. subst b. apply normalizeKey_table in Hk.
      unfold tag_key_mapping in Hk.
      rewrite !elem_of_cons, elem_of_nil in Hk.
      rewrite !elem_of_cons, elem_of_nil.
      destruct Hk as [[= -> _]|[[= -> _]|[[= -> _]|[[= -> _]|[[= -> _]|[]]]]]];
        tauto.
    + rewrite !elem_of_cons, elem_of_nil.
      intros [->|[->|[->|[->|[->|[]]]]]]; reflexivity.
  - apply (bool_decide_unpack _). by vm_compute.
  - intros ->. by apply (normalizeKey_inj k1 k2 ck2).
  - intros ->. congruence.
  - apply table_image_lookup. exists k1. by rewrite <-normalizeKey_table.
  - apply table_image_lookup. exists k2. by rewrite <-normalizeKey_table.
Qed.

(** Host and port of a concrete map, visited backwards. *)
Lemma normalizeKey_injective_no_collision_witness :
  let raw : gmap string string :=
    <["host" := "localhost"]> (<["port" := "5432"]> {["sslmode" := "disable"]}) in
  let accepted := ["user"; "application_name"; "dbname"; "host"; "port"] in
  let out := Store.contents (normalize reverse_order (Some 0) [raw]).2
                            (normalize reverse_order (Some 0) [raw]).1 in
  (∀ k, (normalizeKey k).2 = true ↔ k ∈ accepted) ∧
  NoDup ((λ k, (normalizeKey k).1) <$> accepted) ∧
  ("out.host" = "out.port" ↔ "host" = "port") ∧
  out !! "out.host" = Some "localhost" ∧ out !! "out.port" = Some "5432".
Proof.
  intros raw.
  apply (normalizeKey_injective_no_collision reverse_order (Some 0) [raw]
           "host" "port" "out.host" "out.port" "localhost" "5432");
    reflexivity.
Defined.

(** C10. For every driver identifier and DSN, the map [parseDSN] returns
    is not nil.  It is a map that did not exist when the selected parser
    returned, it holds the table image of whatever entries that parser
    produced (none for an unsupported driver or a nil map), and it comes
    together with the parser's error, also when that error is not nil. *)
Theorem parseDSN_map_never_nil (order : RangeOrder)
    (Postgres MySQL : string → option (gmap string string) * option string)
    (driverType dsn : string) (h : list (gmap string string)) :
  let parsed := parser_result Postgres MySQL driverType dsn in
  let r := parseDSN order Postgres MySQL driverType dsn h in
  ∃ m, r.1.1 = Some m ∧
       (call_parser parsed h).2 !! m = None ∧
       is_Some (r.2 !! m) ∧
       Store.get r.2 m = table_image (default ∅ parsed.1) ∧
       r.1.2 = parsed.2.
Proof.
  cbn zeta.
  pose proof (ParseFacts.parseDSN_contents order Postgres MySQL driverType dsn h)
    as Hc.
  pose proof (ParseFacts.parseDSN_err order Postgres MySQL driverType dsn h)
    as He.
  rewrite ParseFacts.parseDSN_unfold in *. cbn [fst snd] in *.
  set (c := call_parser (parser_result Postgres MySQL driverType dsn) h) in *.
  exists (length c.2). repeat split.
  - by apply lookup_ge_None_2.
  - apply lookup_lt_is_Some. rewrite NormalizeFacts.normalize_length. lia.
  - exact Hc.
  - exact He.
Qed.

(** ** Further properties of the normaliser *)

(** Reading a canonical key of the table image is reading its raw key. *)
Lemma table_image_read (raw : gmap string string) k ck :
  normalizeKey k = (ck, true) → table_image raw !! ck = raw !! k.
Proof.
  intros Hk. apply option_eq. intros v. rewrite table_image_lookup. split.
  - intros (rk & Hrow & Hv). apply normalizeKey_table in Hrow.
    by rewrite (normalizeKey_inj k rk ck).
  - intros Hv. exists k. by rewrite <-normalizeKey_table.
Qed.

Lemma table_image_insert (raw : gmap string string) k v :
  table_image (<[k := v]> raw) =
  match normalizeKey k with
  | (ck, true) => <[ck := v]> (table_image raw)
  | (_, false) => table_image raw
  end.
Proof.
  apply map_eq. intros c. apply option_eq. intros x.
  destruct (normalizeKey k) as [ck [|]] eqn:Hk.
  - destruct (decide (c = ck)) as [->|Hne].
    + by rewrite lookup_insert_eq, (table_image_read _ k ck), lookup_insert_eq.
    + rewrite lookup_insert_ne by done. rewrite !table_image_lookup.
      split; intros (rk & Hrow & Hv); exists rk; (split; [done|]).
      * rewrite lookup_insert_ne in Hv; [done|]. intros ->.
        apply normalizeKey_table in Hrow. congruence.
      * rewrite lookup_insert_ne; [done|]. intros ->.
        apply normalizeKey_table in Hrow. congruence.
  - rewrite !table_image_lookup.
    split; intros (rk & Hrow & Hv); exists rk; (split; [done|]).
    + rewrite lookup_insert_ne in Hv; [done|]. intros ->.
      apply normalizeKey_table in Hrow. congruence.
    + rewrite lookup_insert_ne; [done|]. intros ->.
      apply normalizeKey_table in Hrow. congruence.
Qed.

Lemma table_image_delete (raw : gmap string string) k :
  table_image (delete k raw) =
  match normalizeKey k with
  | (ck, true) => delete ck (table_image raw)
  | (_, false) => table_image raw
  end.
Proof.
  apply map_eq. intros c. apply option_eq. intros x.
  destruct (normalizeKey k) as [ck [|]] eqn:Hk.
  - destruct (decide (c = ck)) as [->|Hne].
    + by rewrite lookup_delete_eq, (table_image_read _ k ck), lookup_delete_eq.
    + rewrite lookup_delete_ne by done. rewrite !table_image_lookup.
      split; intros (rk & Hrow & Hv); exists rk; (split; [done|]).
      * rewrite lookup_delete_ne in Hv; [done|]. intros ->.
        apply normalizeKey_table in Hrow. congruence.
      * rewrite lookup_delete_ne; [done|]. intros ->.
        apply normalizeKey_table in Hrow. congruence.
  - rewrite !table_image_lookup.
    split; intros (rk & Hrow & Hv); exists rk; (split; [done|]).
    + rewrite lookup_delete_ne in Hv; [done|]. intros ->.
      apply normalizeKey_table in Hrow. congruence.
    + rewrite lookup_delete_ne; [done|]. intros ->.
      apply normalizeKey_table in Hrow. congruence.
Qed.

(** The five keys [normalizeKey] accepts. *)
Lemma accepted_cases k :
  (normalizeKey k).2 = true →
  k = "user" ∨ k = "application_name" ∨ k = "dbname" ∨ k = "host" ∨ k = "port".
Proof.
  intros Hacc. destruct (normalizeKey k) as [ck b] eqn:Hk.
  simpl in Hacc. subst b. apply normalizeKey_table in Hk.
  unfold tag_key_mapping in Hk. rewrite !elem_of_cons, elem_of_nil in Hk.
  destruct Hk as [[= -> _]|[[= -> _]|[[= -> _]|[[= -> _]|[[= -> _]|[]]]]]];
    tauto.
Qed.

Lemma normalizeKey_accepted k :
  (normalizeKey k).2 = true → normalizeKey k = ((normalizeKey k).1, true).
Proof. destruct (normalizeKey k) as [ck b]. simpl. by intros ->. Qed.

(** The default case returns the empty string. *)
Lemma normalizeKey_rejected k :
  (normalizeKey k).2 = false → normalizeKey k = ("", false).
Proof.
  unfold normalizeKey.
  repeat (match goal with |- context [if ?b then _ else _] => destruct b end;
          simpl; try discriminate); done.
Qed.

(** No canonical key is itself a raw key of the switch. *)
Lemma normalizeKey_canonical_rejected k :
  (normalizeKey k).2 = true → normalizeKey (normalizeKey k).1 = ("", false).
Proof.
  intros [->|[->|[->|[->| ->]]]]%accepted_cases; reflexivity.
Qed.

Lemma table_image_twice (raw : gmap string string) :
  table_image (table_image raw) = ∅.
Proof.
  apply map_eq. intros ck. rewrite lookup_empty.
  apply eq_None_not_Some. intros [v Hv].
  apply table_image_lookup in Hv as (rk & Hrow & Hv).
  apply table_image_lookup in Hv as (rk' & Hrow' & _).
  apply normalizeKey_table in Hrow, Hrow'.
  assert (Hacc : (normalizeKey rk').2 = true) by by rewrite Hrow'.
  apply normalizeKey_canonical_rejected in Hacc.
  rewrite Hrow' in Hacc. simpl in Hacc. congruence.
Qed.

Lemma table_image_count (raw : gmap string string) :
  size (table_image raw)
  = size (filter (λ kv, (normalizeKey kv.1).2 = true) raw).
Proof.
  induction raw as [|k v raw Hk IH] using map_ind.
  - by rewrite table_image_empty, map_filter_empty.
  - rewrite table_image_insert.
    destruct (normalizeKey k) as [ck b] eqn:Hn. destruct b.
    + rewrite map_filter_insert_True by (simpl; by rewrite Hn).
      rewrite !map_size_insert_None; [by rewrite IH | |].
      * by rewrite map_lookup_filter_None_2; [|left].
      * by rewrite (table_image_read raw k ck).
    + rewrite map_filter_insert_not by (intros ?; simpl; by rewrite Hn).
      done.
Qed.

Lemma table_image_size (raw : gmap string string) :
  size (table_image raw) ≤ size raw.
Proof. rewrite table_image_count. apply map_size_filter. Qed.

Lemma table_image_dom (raw : gmap string string) ck :
  is_Some (table_image raw !! ck) →
  ck ∈ ["db.user"; "db.application"; "db.name"; "out.host"; "out.port"].
Proof.
  intros [v (rk & Hrow & _)%table_image_lookup].
  unfold tag_key_mapping in Hrow. rewrite !elem_of_cons, elem_of_nil in Hrow.
  rewrite !elem_of_cons.
  destruct Hrow as [[= _ ->]|[[= _ ->]|[[= _ ->]|[[= _ ->]|[[= _ ->]|[]]]]]];
    tauto.
Qed.

Lemma table_image_at_most_five (raw : gmap string string) :
  size (table_image raw) ≤ 5.
Proof.
  rewrite <-(size_dom (D := gset string)).
  transitivity (size (list_to_set (C := gset string)
    ["db.user"; "db.application"; "db.name"; "out.host"; "out.port"])).
  - apply subseteq_size. intros ck Hck. apply elem_of_dom in Hck.
    apply elem_of_list_to_set. by apply (table_image_dom raw).
  - by vm_compute.
Qed.

Lemma table_image_empty_iff (raw : gmap string string) :
  table_image raw = ∅ ↔ ∀ k, (normalizeKey k).2 = true → raw !! k = None.
Proof.
  split.
  - intros He k Hk. apply normalizeKey_accepted in Hk.
    by rewrite <-(table_image_read raw k _ Hk), He.
  - intros Hnone. apply map_eq. intros ck. rewrite lookup_empty.
    apply eq_None_not_Some. intros [v (rk & Hrow & Hv)%table_image_lookup].
    apply normalizeKey_table in Hrow.
    rewrite Hnone in Hv; [done|]. by rewrite Hrow.
Qed.

Lemma table_image_eq_iff (raw1 raw2 : gmap string string) :
  table_image raw1 = table_image raw2 ↔
  ∀ k, (normalizeKey k).2 = true → raw1 !! k = raw2 !! k.
Proof.
  split.
  - intros He k Hk. apply normalizeKey_accepted in Hk.
    by rewrite <-(table_image_read raw1 k _ Hk),
               <-(table_image_read raw2 k _ Hk), He.
  - intros Hsame. apply map_eq. intros ck. apply option_eq. intros v.
    rewrite !table_image_lookup.
    split; intros (rk & Hrow & Hv); exists rk; (split; [done|]);
      apply normalizeKey_table in Hrow;
      [rewrite <-Hsame | rewrite Hsame]; try done; by rewrite Hrow.
Qed.

(** [delete] through a map value, nil or not. *)
Lemma contents_delete_key (h : list (gmap string string)) (meta : option nat) k :
  Store.contents (Store.delete_key meta k h) meta
  = delete k (Store.contents h meta).
Proof.
  destruct meta as [l|]; simpl; [|by rewrite delete_empty].
  destruct (decide (l < length h)) as [Hl|Hl].
  - by rewrite StoreFacts.get_put_same.
  - unfold Store.put. rewrite list_insert_ge by lia.
    rewrite StoreFacts.get_dangling by lia. by rewrite delete_empty.
Qed.

(** X1. [normalize] is not idempotent: none of the canonical keys it
    writes is a raw key [normalizeKey] accepts, so normalising the map a
    call of [normalize] returned gives a map without entries, whatever
    the first input was. *)
Theorem normalize_of_normalized_is_empty (order : RangeOrder)
    (meta : option nat) (h : list (gmap string string)) :
  let n1 := normalize order meta h in
  let n2 := normalize order n1.1 n1.2 in
  (∀ k, (normalizeKey k).2 = true →
        normalizeKey (normalizeKey k).1 = ("", false)) ∧
  Store.contents n2.2 n2.1 = ∅.
Proof.
  cbn zeta. split; [apply normalizeKey_canonical_rejected|].
  rewrite !NormalizeFacts.normalize_contents. apply table_image_twice.
Qed.

(** X2. The map [normalize] returns has exactly as many entries as the
    input has entries whose key [normalizeKey] accepts: the loop never
    writes the same key twice.  So it has no more entries than the input,
    and never more than five. *)
Theorem normalize_counts_accepted_entries (order : RangeOrder)
    (meta : option nat) (h : list (gmap string string)) :
  let raw := Store.contents h meta in
  let out := Store.contents (normalize order meta h).2 (normalize order meta h).1 in
  size out = size (filter (λ kv, (normalizeKey kv.1).2 = true) raw) ∧
  size out ≤ size raw ∧
  size out ≤ 5.
Proof.
  cbn zeta. rewrite NormalizeFacts.normalize_contents.
  split; [apply table_image_count|].
  split; [apply table_image_size | apply table_image_at_most_five].
Qed.

(** X3. The map [normalize] returns is empty exactly when the input has
    none of the keys [normalizeKey] accepts. *)
Theorem normalize_empty_iff_no_accepted_key (order : RangeOrder)
    (meta : option nat) (h : list (gmap string string)) :
  let out := Store.contents (normalize order meta h).2 (normalize order meta h).1 in
  out = ∅ ↔ ∀ k, (normalizeKey k).2 = true → Store.contents h meta !! k = None.
Proof.
  cbn zeta. rewrite NormalizeFacts.normalize_contents.
  apply table_image_empty_iff.
Qed.

(** X4. Two calls of [normalize] return maps with the same entries exactly
    when their inputs agree on every key [normalizeKey] accepts (present
    in both with the same value, or absent from both): the accepted part
    of the input can be read back from the result, and nothing else of
    the input can. *)
Theorem normalize_equal_iff_agree_on_accepted (o1 o2 : RangeOrder)
    (meta1 meta2 : option nat) (h1 h2 : list (gmap string string)) :
  let out1 := Store.contents (normalize o1 meta1 h1).2 (normalize o1 meta1 h1).1 in
  let out2 := Store.contents (normalize o2 meta2 h2).2 (normalize o2 meta2 h2).1 in
  out1 = out2 ↔
  ∀ k, (normalizeKey k).2 = true →
       Store.contents h1 meta1 !! k = Store.contents h2 meta2 !! k.
Proof.
  cbn zeta. rewrite !NormalizeFacts.normalize_contents.
  apply table_image_eq_iff.
Qed.

(** X5. [normalize] follows an assignment to its input: after
    [meta[k] = v] on an allocated map, [normalize] returns what it
    returned before with the canonical key of [k] set to [v] when
    [normalizeKey] accepts [k], and just what it returned before when it
    does not. *)
Theorem normalize_after_set_key (order : RangeOrder) (l : nat) (k v : string)
    (h : list (gmap string string)) :
  l < length h →
  let out := Store.contents (normalize order (Some l) h).2
                            (normalize order (Some l) h).1 in
  let h' := Store.set_key l k v h in
  let out' := Store.contents (normalize order (Some l) h').2
                             (normalize order (Some l) h').1 in
  out' = match normalizeKey k with
         | (ck, true) => <[ck := v]> out
         | (_, false) => out
         end.
Proof.
  intros Hl. cbn zeta. rewrite !NormalizeFacts.normalize_contents.
  cbn [Store.contents]. rewrite StoreFacts.get_set_key_same by done.
  apply table_image_insert.
Qed.

(** Overwriting the host and adding an attribute the switch does not
    know. *)
Lemma normalize_after_set_key_witness :
  let raw : gmap string string := <["host" := "localhost"]> {["user" := "reader"]} in
  let out h := Store.contents (normalize reverse_order (Some 0) h).2
                              (normalize reverse_order (Some 0) h).1 in
  0 < length [raw] ∧
  out (Store.set_key 0 "host" "db1" [raw]) = <["out.host" := "db1"]> (out [raw]) ∧
  out (Store.set_key 0 "sslmode" "disable" [raw]) = out [raw].
Proof.
  intros raw out.
  assert (Hl : 0 < length [raw]) by (simpl; lia).
  split; [exact Hl|]. split.
  - exact (normalize_after_set_key reverse_order 0 "host" "db1" [raw] Hl).
  - exact (normalize_after_set_key reverse_order 0 "sslmode" "disable" [raw] Hl).
Defined.

(** X6. [normalize] follows a deletion from its input: after
    [delete(meta, k)], on a nil map as well, [normalize] returns what it
    returned before without the canonical key of [k] when [normalizeKey]
    accepts [k], and just what it returned before when it does not. *)
Theorem normalize_after_delete_key (order : RangeOrder) (meta : option nat)
    (k : string) (h : list (gmap string string)) :
  let out := Store.contents (normalize order meta h).2 (normalize order meta h).1 in
  let h' := Store.delete_key meta k h in
  let out' := Store.contents (normalize order meta h').2
                             (normalize order meta h').1 in
  out' = match normalizeKey k with
         | (ck, true) => delete ck out
         | (_, false) => out
         end.
Proof.
  cbn zeta. rewrite !NormalizeFacts.normalize_contents.
  rewrite contents_delete_key. apply table_image_delete.
Qed.

(** X7. [normalize] is monotone: when every entry of one input is an entry
    of another, every entry of the first result is an entry of the second.
    Adding attributes to a DSN never removes or changes a tag. *)
Theorem normalize_monotone (o1 o2 : RangeOrder)
    (meta1 meta2 : option nat) (h1 h2 : list (gmap string string)) :
  Store.contents h1 meta1 ⊆ Store.contents h2 meta2 →
  Store.contents (normalize o1 meta1 h1).2 (normalize o1 meta1 h1).1
  ⊆ Store.contents (normalize o2 meta2 h2).2 (normalize o2 meta2 h2).1.
Proof.
  intros Hsub. rewrite !NormalizeFacts.normalize_contents.
  apply map_subseteq_spec. intros ck v.
  rewrite !table_image_lookup. intros (rk & Hrow & Hv).
  exists rk. split; [done|]. by apply (lookup_weaken _ _ _ _ Hv).
Qed.

(** A map with the user only, and the same map with a port, in another
    store and visited backwards. *)
Lemma normalize_monotone_witness :
  let small : gmap string string := {["user" := "reader"]} in
  let large : gmap string string := <["port" := "5432"]> small in
  Store.contents [small] (Some 0) ⊆ Store.contents [∅; large] (Some 1) ∧
  Store.contents (normalize canonical_order (Some 0) [small]).2
                 (normalize canonical_order (Some 0) [small]).1
  ⊆ Store.contents (normalize reverse_order (Some 1) [∅; large]).2
                   (normalize reverse_order (Some 1) [∅; large]).1.
Proof.
  intros small large.
  assert (Hsub : Store.contents [small] (Some 0)
                 ⊆ Store.contents [∅; large] (Some 1)).
  { apply insert_subseteq. reflexivity. }
  split; [exact Hsub|].
  exact (normalize_monotone canonical_order reverse_order (Some 0) (Some 1)
           [small] [∅; large] Hsub).
Defined.

(** X8. [normalizeKey] compares keys exactly: a key with an upper-case
    ASCII letter, that is a key [strings.ToLower] changes, takes the
    default case of the switch, also when its lower-case form is one of
    the five accepted keys. *)
Theorem normalizeKey_case_sensitive (k : string) :
  ToLower k ≠ k → normalizeKey k = ("", false).
Proof.
  intros Hk. apply normalizeKey_rejected.
  destruct (normalizeKey k).2 eqn:Hacc; [|done].
  destruct Hk.
  by apply accepted_cases in Hacc as [->|[->|[->|[->| ->]]]].
Qed.

(** A capitalised host. *)
Lemma normalizeKey_case_sensitive_witness :
  ToLower "Host" ≠ "Host" ∧
  normalizeKey (ToLower "Host") = ("out.host", true) ∧
  normalizeKey "Host" = ("", false).
Proof.
  assert (Hk : ToLower "Host" ≠ "Host") by discriminate.
  split; [exact Hk|]. split; [reflexivity|].
  exact (normalizeKey_case_sensitive "Host" Hk).
Defined.

(** X9. Whatever the parsers return, the keys of the map [parseDSN]
    returns are among the five canonical keys.  In particular the map has
    no statement-text key, the key the script sets on and deletes from the
    expected span. *)
Theorem parseDSN_only_canonical_keys (order : RangeOrder)
    (Postgres MySQL : string → option (gmap string string) * option string)
    (driverType dsn : string) (h : list (gmap string string)) :
  let r := parseDSN order Postgres MySQL driverType dsn h in
  let out := Store.contents r.2 r.1.1 in
  (∀ ck, is_Some (out !! ck) →
         ck ∈ ["db.user"; "db.application"; "db.name"; "out.host"; "out.port"]) ∧
  out !! sql_query_key = None.
Proof.
  cbn zeta. rewrite ParseFacts.parseDSN_contents. split.
  - apply table_image_dom.
  - apply eq_None_not_Some. intros Hs. apply table_image_dom in Hs.
    revert Hs. unfold sql_query_key. rewrite !elem_of_cons, elem_of_nil.
    intros [?|[?|[?|[?|[?|[]]]]]]; discriminate.
Qed.

(** X10. The map [normalize] returns is never the input map: for an
    allocated input, an assignment to or a deletion from the result does
    not show through the input, and an assignment to or a deletion from
    the input after the call does not show through the result. *)
Theorem normalize_result_not_aliased (order : RangeOrder) (l : nat)
    (h : list (gmap string string)) (k v : string) :
  l < length h →
  let n := normalize order (Some l) h in
  ∃ m, n.1 = Some m ∧ m ≠ l ∧
       Store.contents (Store.set_key m k v n.2) (Some l)
         = Store.contents h (Some l) ∧
       Store.contents (Store.delete_key n.1 k n.2) (Some l)
         = Store.contents h (Some l) ∧
       Store.contents (Store.set_key l k v n.2) n.1 = Store.contents n.2 n.1 ∧
       Store.contents (Store.delete_key (Some l) k n.2) n.1
         = Store.contents n.2 n.1.
Proof.
  intros Hl. cbn zeta.
  pose proof (NormalizeFacts.normalize_ref order (Some l) h) as Href.
  pose proof (NormalizeFacts.normalize_input_unchanged order (Some l) h) as Hin.
  destruct (normalize order (Some l) h) as [r h2]. simpl in Href, Hin. subst r.
  exists (length h). split; [done|]. split; [lia|].
  cbn [fst snd Store.contents Store.delete_key]. unfold Store.set_key.
  by rewrite !StoreFacts.get_put_other by lia.
Qed.

(** The user of a one-entry map, overwritten in the result and in the
    input after the call. *)
Lemma normalize_result_not_aliased_witness :
  let raw : gmap string string := {["user" := "reader"]} in
  0 < length [raw] ∧
  ltac:(let T := type of (normalize_result_not_aliased canonical_order 0 [raw]
                            "user" "admin") in
        lazymatch T with _ → ?C => exact C end).
Proof.
  intros raw.
  assert (Hl : 0 < length [raw]) by (simpl; lia).
  split; [exact Hl|].
  exact (normalize_result_not_aliased canonical_order 0 [raw] "user" "admin" Hl).
Defined.

(** ** Opening the handle *)

Module OpenFacts.
Import Store StoreFacts NormalizeFacts ParseFacts.

(** The table has no row for the statement-text key. *)
Lemma table_image_no_statement_text (raw : gmap string string) :
  table_image raw !! sql_query_key = None.
Proof.
  apply eq_None_not_Some. intros [v Hv].
  apply table_image_lookup in Hv as (rk & Hrow & _).
  unfold tag_key_mapping, sql_query_key in Hrow.
  rewrite !elem_of_cons, elem_of_nil in Hrow.
  destruct Hrow as [H|[H|[H|[H|[H|[]]]]]]; discriminate H.
Qed.

Section WithParams.
Variable order : RangeOrder.
Variable Postgres MySQL : string → option (gmap string string) * option string.
Variable fail_open_on_dsn_error : bool.

(** A handle opened by [newDB] has an allocated descriptor that holds
    the table image of what the parser produced, or nothing at all;
    the tracer and the transport start empty; no span is created. *)
Lemma newDB_spec name service driver dsn w0 db w :
  newDB order Postgres MySQL fail_open_on_dsn_error name service driver dsn w0
  = Some (db, w) →
  Name db = name ∧ Service db = service ∧
  descriptor (sqlDB db) < length (maps w) ∧
  (get (maps w) (descriptor (sqlDB db))
     = table_image (default ∅ (parser_result Postgres MySQL driver dsn).1)
   ∨ get (maps w) (descriptor (sqlDB db)) = ∅) ∧
  buffer w = [] ∧ captured w = [] ∧
  spans w = spans w0 ∧ asserted w = asserted w0.
Proof.
  unfold newDB, OpenTraced, GetTestTracer, bind, on_maps, alloc_map, ret, panic.
  cbn [maps spans next_id buffer captured asserted].
  pose proof (parseDSN_contents order Postgres MySQL driver dsn (maps w0)) as Hc.
  pose proof (parseDSN_err order Postgres MySQL driver dsn (maps w0)) as He.
  pose proof (parseDSN_unfold order Postgres MySQL driver dsn (maps w0)) as Hu.
  destruct (parseDSN order Postgres MySQL driver dsn (maps w0))
    as [[meta err] h] eqn:Hp.
  cbn [fst snd] in *.
  destruct err as [msg|].
  - destruct fail_open_on_dsn_error; [done|].
    cbn [alloc maps spans next_id buffer captured asserted fst snd].
    intros [= <- <-]. cbn [sqlDB descriptor Name Service maps spans buffer
                           captured asserted].
    repeat split; try done.
    + rewrite length_app. simpl. lia.
    + right. apply get_alloc_new.
  - destruct meta as [d|]; [|done].
    cbn [fst snd]. intros [= <- <-].
    cbn [sqlDB descriptor Name Service maps spans buffer captured asserted].
    pose proof (f_equal (λ x, x.1.1) Hu) as Hd.
    pose proof (f_equal snd Hu) as Hh.
    cbn beta zeta in Hd, Hh. cbn [fst snd] in Hd, Hh.
    rewrite normalize_ref in Hd. injection Hd as ->.
    repeat split; try done.
    + rewrite Hh, normalize_length. lia.
    + left. exact Hc.
Qed.

Lemma newDB_descriptor_no_statement_text name service driver dsn w0 db w :
  newDB order Postgres MySQL fail_open_on_dsn_error name service driver dsn w0
  = Some (db, w) →
  get (maps w) (descriptor (sqlDB db)) !! sql_query_key = None.
Proof.
  intros H. apply newDB_spec in H as (_ & _ & _ & [->| ->] & _).
  - apply table_image_no_statement_text.
  - apply lookup_empty.
Qed.

End WithParams.
End OpenFacts.

(** ** The span-lifecycle contract, checked by the script *)

Section ScriptContract.
Import Store.

Variable statement_tag_wins : bool.
Variable CopySpan_shares_meta : bool.

Lemma one_span_step_produced db tmpl ty resource text w traces w' :
  one_span_step statement_tag_wins db tmpl ty resource text w traces w' →
  ∃ a, traces = [[a]] ∧ produced w w' a ty resource.
Proof.
  intros (a & s & e & -> & Hnew & Hs & Heq & _).
  exists a. split; [done|]. split; [done|].
  exists s. split; [done|]. by rewrite Heq.
Qed.

Lemma transaction_step_produced db tmpl query w result w' :
  transaction_step statement_tag_wins db tmpl query w result w' →
  ∃ b x c,
    result.2 = [[b; x; c]] ∧
    produced w w' b TransactionBegin "Begin" ∧
    produced w w' x Execute query ∧
    produced w w' c TransactionCommit "Commit" ∧
    child_of w' b result.1 ∧ child_of w' x result.1 ∧ child_of w' c result.1.
Proof.
  intros (b & x & c & P & sb & sx & sc & e & Hres & _ & Hnb & Hnx & Hnc &
          HP & _ & Hb & Hsb & Hx & Hsx & Hc & Hsc & _).
  exists b, x, c. split; [done|].
  split; [split; [done|]; exists sb; split; [done|]; by rewrite Hsb|].
  split; [split; [done|]; exists sx; split; [done|]; by rewrite Hsx|].
  split; [split; [done|]; exists sc; split; [done|]; by rewrite Hsc|].
  split; [exists sb, P; do 2 (split; [done|]); by rewrite Hsb|].
  split; [exists sx, P; do 2 (split; [done|]); by rewrite Hsx|].
  exists sc, P; do 2 (split; [done|]); by rewrite Hsc.
Qed.

(** C2. In a world in which a step of the script can run, every traced
    operation of the script produces exactly one span per call: after
    the connection check, the direct query, the prepare, the statement
    execution, the transaction begin and the rollback, the captured
    traces are one trace of one new span, of the type of that operation;
    after begin with an ambient parent, exec and commit, they are one
    trace of three new spans, of types begin, exec and commit in that
    order. *)
Theorem script_one_span_per_call (db : DB) (expectedSpan : nat)
    (query : string) (w : World) :
  ready (sqlDB db) expectedSpan w →
  let stmt := mkStmt (sqlDB db) query in
  let tx := mkTx (sqlDB db) Background in
  let new w' a ty := spans w !! a = None ∧
                     ∃ s, spans w' !! a = Some s ∧ SpanType s = ty in
  (∃ a w', testDB_Ping statement_tag_wins CopySpan_shares_meta db expectedSpan w
           = Some ([[a]], w') ∧ new w' a ConnectionCheck) ∧
  (∃ a w', testDB_Query statement_tag_wins CopySpan_shares_meta db expectedSpan
                        query w
           = Some ([[a]], w') ∧ new w' a Query) ∧
  (∃ a w', testStatement_Prepare statement_tag_wins CopySpan_shares_meta db
                                 expectedSpan query w
           = Some ((stmt, [[a]]), w') ∧ new w' a Prepare) ∧
  (∃ a w', testStatement_Exec statement_tag_wins CopySpan_shares_meta db
                              expectedSpan stmt query w
           = Some ([[a]], w') ∧ new w' a Execute) ∧
  (∃ a w', testTransaction_Begin statement_tag_wins CopySpan_shares_meta db
                                 expectedSpan w
           = Some ((tx, [[a]]), w') ∧ new w' a TransactionBegin) ∧
  (∃ a w', testTransaction_Rollback statement_tag_wins CopySpan_shares_meta db
                                    expectedSpan tx w
           = Some ([[a]], w') ∧ new w' a TransactionRollback) ∧
  (∃ p b x c w',
      testTransaction_Exec statement_tag_wins CopySpan_shares_meta db
                           expectedSpan query w
      = Some ((p, [[b; x; c]]), w') ∧
      new w' b TransactionBegin ∧ new w' x Execute ∧
      new w' c TransactionCommit).
Proof.
  intros Hr. cbn zeta.
  assert (Hnew : ∀ w' a ty r, produced w w' a ty r →
            spans w !! a = None ∧
            ∃ s, spans w' !! a = Some s ∧ SpanType s = ty).
  { intros w' a ty r (Hn & s & Hs & Hty & _). eauto. }
  repeat split.
  - destruct (ScriptFacts.testDB_Ping_spec statement_tag_wins
                CopySpan_shares_meta db expectedSpan w Hr)
      as (traces & w' & Hrun & Hpost).
    apply one_span_step_produced in Hpost as (a & -> & Hp). eauto 6.
  - destruct (ScriptFacts.testDB_Query_spec statement_tag_wins
                CopySpan_shares_meta db expectedSpan query w Hr)
      as (traces & w' & Hrun & Hpost).
    apply one_span_step_produced in Hpost as (a & -> & Hp). eauto 6.
  - destruct (ScriptFacts.testStatement_Prepare_spec statement_tag_wins
                CopySpan_shares_meta db expectedSpan query w Hr)
      as (traces & w' & Hrun & Hpost).
    apply one_span_step_produced in Hpost as (a & -> & Hp). eauto 6.
  - destruct (ScriptFacts.testStatement_Exec_spec statement_tag_wins
                CopySpan_shares_meta db expectedSpan
                (mkStmt (sqlDB db) query) w Hr)
      as (traces & w' & Hrun & Hpost).
    apply one_span_step_produced in Hpost as (a & -> & Hp). eauto 6.
  - destruct (ScriptFacts.testTransaction_Begin_spec statement_tag_wins
                CopySpan_shares_meta db expectedSpan w Hr)
      as (traces & w' & Hrun & Hpost).
    apply one_span_step_produced in Hpost as (a & -> & Hp). eauto 6.
  - destruct (ScriptFacts.testTransaction_Rollback_spec statement_tag_wins
                CopySpan_shares_meta db expectedSpan
                (mkTx (sqlDB db) Background) w eq_refl Hr)
      as (traces & w' & Hrun & Hpost).
    apply one_span_step_produced in Hpost as (a & -> & Hp). eauto 6.
  - destruct (ScriptFacts.testTransaction_Exec_spec statement_tag_wins
                CopySpan_shares_meta db expectedSpan query w Hr)
      as ([p traces] & w' & Hrun & Hpost).
    apply transaction_step_produced
      in Hpost as (b & x & c & Hres & Hb & Hx & Hc & _).
    simpl in Hres. subst traces.
    exists p, b, x, c, w'. eauto 10.
Qed.

(** C3. In a world in which a step of the script can run, the span a
    traced operation produces has as resource name the literal statement
    text for the query, the prepare and the two exec spans, and the fixed
    label of the operation otherwise: Ping for the connection check,
    Begin for the transaction begin (with or without ambient parent),
    Rollback for the rollback and Commit for the commit. *)
Theorem script_resource_names (db : DB) (expectedSpan : nat)
    (query : string) (w : World) :
  ready (sqlDB db) expectedSpan w →
  let stmt := mkStmt (sqlDB db) query in
  let tx := mkTx (sqlDB db) Background in
  (∃ a w', testDB_Ping statement_tag_wins CopySpan_shares_meta db expectedSpan w
           = Some ([[a]], w') ∧ produced w w' a ConnectionCheck "Ping") ∧
  (∃ a w', testDB_Query statement_tag_wins CopySpan_shares_meta db expectedSpan
                        query w
           = Some ([[a]], w') ∧ produced w w' a Query query) ∧
  (∃ a w', testStatement_Prepare statement_tag_wins CopySpan_shares_meta db
                                 expectedSpan query w
           = Some ((stmt, [[a]]), w') ∧ produced w w' a Prepare query) ∧
  (∃ a w', testStatement_Exec statement_tag_wins CopySpan_shares_meta db
                              expectedSpan stmt query w
           = Some ([[a]], w') ∧ produced w w' a Execute query) ∧
  (∃ a w', testTransaction_Begin statement_tag_wins CopySpan_shares_meta db
                                 expectedSpan w
           = Some ((tx, [[a]]), w') ∧
           produced w w' a TransactionBegin "Begin") ∧
  (∃ a w', testTransaction_Rollback statement_tag_wins CopySpan_shares_meta db
                                    expectedSpan tx w
           = Some ([[a]], w') ∧
           produced w w' a TransactionRollback "Rollback") ∧
  (∃ p b x c w',
      testTransaction_Exec statement_tag_wins CopySpan_shares_meta db
                           expectedSpan query w
      = Some ((p, [[b; x; c]]), w') ∧
      produced w w' b TransactionBegin "Begin" ∧
      produced w w' x Execute query ∧
      produced w w' c TransactionCommit "Commit").
Proof.
  intros Hr. cbn zeta. repeat split.
  - destruct (ScriptFacts.testDB_Ping_spec statement_tag_wins
                CopySpan_shares_meta db expectedSpan w Hr)
      as (traces & w' & Hrun & Hpost).
    apply one_span_step_produced in Hpost as (a & -> & Hp). eauto.
  - destruct (ScriptFacts.testDB_Query_spec statement_tag_wins
                CopySpan_shares_meta db expectedSpan query w Hr)
      as (traces & w' & Hrun & Hpost).
    apply one_span_step_produced in Hpost as (a & -> & Hp). eauto.
  - destruct (ScriptFacts.testStatement_Prepare_spec statement_tag_wins
                CopySpan_shares_meta db expectedSpan query w Hr)
      as (traces & w' & Hrun & Hpost).
    apply one_span_step_produced in Hpost as (a & -> & Hp). eauto.
  - destruct (ScriptFacts.testStatement_Exec_spec statement_tag_wins
                CopySpan_shares_meta db expectedSpan
                (mkStmt (sqlDB db) query) w Hr)
      as (traces & w' & Hrun & Hpost).
    apply one_span_step_produced in Hpost as (a & -> & Hp). eauto.
  - destruct (ScriptFacts.testTransaction_Begin_spec statement_tag_wins
                CopySpan_shares_meta db expectedSpan w Hr)
      as (traces & w' & Hrun & Hpost).
    apply one_span_step_produced in Hpost as (a & -> & Hp). eauto.
  - destruct (ScriptFacts.testTransaction_Rollback_spec statement_tag_wins
                CopySpan_shares_meta db expectedSpan
                (mkTx (sqlDB db) Background) w eq_refl Hr)
      as (traces & w' & Hrun & Hpost).
    apply one_span_step_produced in Hpost as (a & -> & Hp). eauto.
  - destruct (ScriptFacts.testTransaction_Exec_spec statement_tag_wins
                CopySpan_shares_meta db expectedSpan query w Hr)
      as ([p traces] & w' & Hrun & Hpost).
    apply transaction_step_produced
      in Hpost as (b & x & c & Hres & Hb & Hx & Hc & _).
    simpl in Hres. subst traces.
    exists p, b, x, c, w'. eauto.
Qed.

(** C9. In a world in which a step of the script can run, the lines
    that follow the capture of a span with a statement (copy the
    expected span, set resource and statement-text tag on the copy,
    compare, delete the [sql.query] key of the expected span) run to
    their end whatever the captured span is, and each of the four steps
    that contain them (query, prepare, statement exec, exec inside the
    transaction) runs to its end; either way the expected span is left
    as it was found, except that its metadata map has lost the
    [sql.query] key: the span object is unchanged, its map has no
    statement-text key, every other key of the map is bound as before,
    and the world is ready for the next step.  This holds whether
    [CopySpan] shares the metadata map of the expected span or copies
    it. *)
Theorem script_clears_statement_text (db : DB) (expectedSpan : nat)
    (query : string) (w : World) (actualSpan : nat) (actual : Span) :
  ready (sqlDB db) expectedSpan w →
  spans w !! actualSpan = Some actual →
  let stmt := mkStmt (sqlDB db) query in
  let cleared w' :=
    ∃ e, spans w !! expectedSpan = Some e ∧
         spans w' !! expectedSpan = Some e ∧
         get (maps w') (Meta e) = delete "sql.query" (get (maps w) (Meta e)) ∧
         get (maps w') (Meta e) !! "sql.query" = None ∧
         (∀ k, k ≠ "sql.query" →
               get (maps w') (Meta e) !! k = get (maps w) (Meta e) !! k) ∧
         ready (sqlDB db) expectedSpan w' in
  (∃ w', (copy <- CopySpan CopySpan_shares_meta expectedSpan;;
          set_Resource copy query;;;
          SetMeta copy sql_query_key query;;;
          CompareSpan copy actualSpan;;;
          delete_statement_text expectedSpan) w = Some (tt, w') ∧
         cleared w') ∧
  (∃ r w', testDB_Query statement_tag_wins CopySpan_shares_meta db expectedSpan
                        query w = Some (r, w') ∧ cleared w') ∧
  (∃ r w', testStatement_Prepare statement_tag_wins CopySpan_shares_meta db
                                 expectedSpan query w = Some (r, w') ∧
           cleared w') ∧
  (∃ r w', testStatement_Exec statement_tag_wins CopySpan_shares_meta db
                              expectedSpan stmt query w = Some (r, w') ∧
           cleared w') ∧
  (∃ r w', testTransaction_Exec statement_tag_wins CopySpan_shares_meta db
                                expectedSpan query w = Some (r, w') ∧
           cleared w').
Proof.
  intros Hr Hactual. cbn zeta.
  assert (Hdel : ∀ (m : gmap string string),
    delete "sql.query" m !! "sql.query" = None ∧
    ∀ k, k ≠ "sql.query" → delete "sql.query" m !! k = m !! k).
  { intros m. split; [apply lookup_delete_eq|].
    intros k Hk. by apply lookup_delete_ne. }
  assert (Hone : ∀ ty traces w',
    one_span_step statement_tag_wins (sqlDB db) expectedSpan ty query
                  (Some query) w traces w' →
    ∃ e, spans w !! expectedSpan = Some e ∧
         spans w' !! expectedSpan = Some e ∧
         get (maps w') (Meta e) = delete "sql.query" (get (maps w) (Meta e)) ∧
         get (maps w') (Meta e) !! "sql.query" = None ∧
         (∀ k, k ≠ "sql.query" →
               get (maps w') (Meta e) !! k = get (maps w) (Meta e) !! k) ∧
         ready (sqlDB db) expectedSpan w').
  { intros ty traces w' (a & s & e & _ & _ & _ & _ & _ & _ & He & He' & Hm &
                         _ & _ & Hr' & _).
    exists e. rewrite Hm. unfold sql_query_key.
    do 3 (split; [done|]). by destruct (Hdel (get (maps w) (Meta e))). }
  split; [|repeat split].
  - pose proof Hr as (Hd & (e & He & Hm) & Hb & Hc).
    destruct (ScriptFacts.statement_block_run CopySpan_shares_meta
                expectedSpan actualSpan query w e actual He Hm Hactual)
      as (w' & Hrun & He' & Hmeta & _ & _ & Hlen & Hb' & Hc').
    exists w'. split; [done|]. exists e. rewrite Hmeta. unfold sql_query_key.
    do 3 (split; [done|]).
    destruct (Hdel (get (maps w) (Meta e))) as [Hk Hother].
    do 2 (split; [done|]).
    split; [lia|]. split; [|by rewrite Hb', Hc'].
    exists e. split; [done|lia].
  - destruct (ScriptFacts.testDB_Query_spec statement_tag_wins
                CopySpan_shares_meta db expectedSpan query w Hr)
      as (traces & w' & Hrun & Hpost). eauto.
  - destruct (ScriptFacts.testStatement_Prepare_spec statement_tag_wins
                CopySpan_shares_meta db expectedSpan query w Hr)
      as (traces & w' & Hrun & Hpost). eauto.
  - destruct (ScriptFacts.testStatement_Exec_spec statement_tag_wins
                CopySpan_shares_meta db expectedSpan
                (mkStmt (sqlDB db) query) w Hr)
      as (traces & w' & Hrun & Hpost). eauto.
  - destruct (ScriptFacts.testTransaction_Exec_spec statement_tag_wins
                CopySpan_shares_meta db expectedSpan query w Hr)
      as (r & w' & Hrun & Hpost).
    exists r, w'. split; [done|].
    destruct Hpost as (b & x & c & P & sb & sx & sc & e & Hpost).
    destruct Hpost as (_ & _ & _ & _ & _ & _ & _ & _ & _ & _ & _ & _ & _ &
                       _ & _ & _ & He & He' & Hm & _ & _ & Hr' & _).
    exists e. rewrite Hm. unfold sql_query_key.
    do 3 (split; [done|]). by destruct (Hdel (get (maps w) (Meta e))).
Qed.
End ScriptContract.

(** ** Transactions under an ambient parent, and prepared statements *)

Section HandleContract.
Import Store.

Variable statement_tag_wins : bool.

(** A traced call closes one span, whose lineage is that of the
    context. *)
Lemma traced_one_span_closed db ty resource ctx text w tid pid :
  lineage w ctx (next_id w) = Some (tid, pid) →
  ∃ s w',
    traced statement_tag_wins db ty resource ctx text w
    = Some (length (spans w), w') ∧
    one_span_closed w w' s ∧
    maps w' = maps w ++ [span_meta statement_tag_wins
                                   (get (maps w) (descriptor db)) text] ∧
    s = mkSpan ty resource (length (maps w)) (next_id w) tid pid.
Proof.
  intros Hlin. eexists _, _.
  split; [by apply ScriptFacts.traced_run|]. by repeat split.
Qed.

(** C5. When a transaction is begun with an ambient parent span P in
    the context, the begin call, every exec call on the transaction (in
    whatever world and with whatever context and statement it is made)
    and the commit call each close one span that has P's trace
    identifier and P as parent.  In the script, in a world in which a
    step can run, begin with the parent span, exec and commit are
    therefore captured as a single trace of three new spans, begin,
    exec and commit in that order, all three children of the parent in
    its trace. *)
Theorem transaction_spans_share_parent_trace (CopySpan_shares_meta : bool)
    (h : TracedHandle) (w0 : World) (p : nat) (P : Span) (ctx : option nat)
    (q : string) (db : DB) (expectedSpan : nat) (query : string) (w : World) :
  spans w0 !! p = Some P →
  ready (sqlDB db) expectedSpan w →
  let tx := mkTx h (Some p) in
  let under_P s := TraceID s = TraceID P ∧ ParentID s = Some (SpanID P) in
  (∃ s w1, DB_BeginTx statement_tag_wins h (ContextWithSpan Background p) w0
           = Some ((tx, None), w1) ∧
           one_span_closed w0 w1 s ∧ SpanType s = TransactionBegin ∧ under_P s) ∧
  (∃ s w1, Tx_ExecContext statement_tag_wins tx ctx q w0 = Some (None, w1) ∧
           one_span_closed w0 w1 s ∧ SpanType s = Execute ∧ under_P s) ∧
  (∃ s w1, Tx_Commit statement_tag_wins tx w0 = Some (None, w1) ∧
           one_span_closed w0 w1 s ∧ SpanType s = TransactionCommit ∧
           under_P s) ∧
  (∃ parent b x c w',
      testTransaction_Exec statement_tag_wins CopySpan_shares_meta db
                           expectedSpan query w
      = Some ((parent, [[b; x; c]]), w') ∧
      produced w w' b TransactionBegin "Begin" ∧
      produced w w' x Execute query ∧
      produced w w' c TransactionCommit "Commit" ∧
      child_of w' b parent ∧ child_of w' x parent ∧ child_of w' c parent).
Proof.
  intros HP Hr. cbn zeta.
  assert (Hlin : lineage w0 (Some p) (next_id w0)
                 = Some (TraceID P, Some (SpanID P)))
    by (simpl; by rewrite HP).
  split; [|split; [|split]].
  - destruct (traced_one_span_closed h TransactionBegin "Begin" (Some p) None
                w0 _ _ Hlin) as (s & w1 & Hrun & Hclosed & _ & ->).
    eexists _, w1.
    split; [unfold DB_BeginTx, ContextWithSpan;
            by erewrite ScriptFacts.bind_run by exact Hrun|].
    split; [exact Hclosed|]. by repeat split.
  - destruct (traced_one_span_closed h Execute q (Some p) (Some q)
                w0 _ _ Hlin) as (s & w1 & Hrun & Hclosed & _ & ->).
    eexists _, w1.
    split; [unfold Tx_ExecContext; cbn [tx_handle tx_parent];
            by erewrite ScriptFacts.bind_run by exact Hrun|].
    split; [exact Hclosed|]. by repeat split.
  - destruct (traced_one_span_closed h TransactionCommit "Commit" (Some p) None
                w0 _ _ Hlin) as (s & w1 & Hrun & Hclosed & _ & ->).
    eexists _, w1.
    split; [unfold Tx_Commit; cbn [tx_handle tx_parent];
            by erewrite ScriptFacts.bind_run by exact Hrun|].
    split; [exact Hclosed|]. by repeat split.
  - destruct (ScriptFacts.testTransaction_Exec_spec statement_tag_wins
                CopySpan_shares_meta db expectedSpan query w Hr)
      as ([parent traces] & w' & Hrun & Hpost).
    apply (transaction_step_produced statement_tag_wins)
      in Hpost as (b & x & c & Hres & Hpost).
    simpl in Hres. subst traces. by exists parent, b, x, c, w'.
Qed.

(** C6. On a handle opened by [newDB], whatever the driver, the DSN and
    the parsers, a statement returned by Prepare for the text [q] keeps
    that text, and executing it, with any arguments, closes one span of
    type exec whose resource name is [q] and whose metadata binds the
    statement-text key to [q]. *)
Theorem statement_exec_uses_prepared_text (order : RangeOrder)
    (Postgres MySQL : string → option (gmap string string) * option string)
    (fail_open_on_dsn_error : bool) (name service driver dsn : string)
    (w0 : World) (db : DB) (w : World) (q : string) (args : list string) :
  newDB order Postgres MySQL fail_open_on_dsn_error name service driver dsn w0
  = Some (db, w) →
  ∃ stmt w1 s w2,
    DB_Prepare statement_tag_wins (sqlDB db) q w = Some ((stmt, None), w1) ∧
    stmt_query stmt = q ∧
    Stmt_Exec statement_tag_wins stmt args w1 = Some (None, w2) ∧
    one_span_closed w1 w2 s ∧
    SpanType s = Execute ∧
    Resource s = q ∧
    get (maps w2) (Meta s) !! "sql.query" = Some q.
Proof.
  intros Hopen.
  pose proof (OpenFacts.newDB_descriptor_no_statement_text _ _ _ _ _ _ _ _ _ _
                _ Hopen) as Hnone.
  apply OpenFacts.newDB_spec in Hopen as (_ & _ & Hd & _).
  destruct (traced_one_span_closed (sqlDB db) Prepare q Background (Some q)
              w _ _ eq_refl) as (s1 & w1 & Hrun1 & Hclosed1 & Hmaps1 & _).
  destruct (traced_one_span_closed (sqlDB db) Execute q Background (Some q)
              w1 _ _ eq_refl) as (s & w2 & Hrun2 & Hclosed2 & Hmaps2 & ->).
  eexists (mkStmt (sqlDB db) q), w1, _, w2.
  split; [unfold DB_Prepare, DB_PrepareContext;
          by erewrite ScriptFacts.bind_run by exact Hrun1|].
  split; [done|].
  split; [unfold Stmt_Exec, Stmt_ExecContext; cbn [stmt_handle stmt_query];
          by erewrite ScriptFacts.bind_run by exact Hrun2|].
  split; [exact Hclosed2|]. split; [done|]. split; [done|].
  cbn [Meta]. rewrite Hmaps2, StoreFacts.get_alloc_new.
  rewrite Hmaps1, StoreFacts.get_alloc_old by lia.
  unfold span_meta. rewrite Hnone. apply lookup_insert_eq.
Qed.
End HandleContract.

(** ** The whole script *)

Section WholeScript.
Import Store.

Variable statement_tag_wins : bool.
Variable CopySpan_shares_meta : bool.

Lemma span_meta_statement D q :
  D !! sql_query_key = None →
  span_meta statement_tag_wins D (Some q) = <[sql_query_key := q]> D.
Proof. intros H. unfold span_meta. by rewrite H. Qed.

(** A step that expects one span keeps the expected span fitting the
    handle, and its five assertions hold. *)
Lemma one_span_step_passes db tmpl ty resource text w traces w' :
  fits db tmpl w →
  one_span_step statement_tag_wins db tmpl ty resource text w traces w' →
  fits db tmpl w' ∧ asserted w' = asserted w ++ replicate 5 true.
Proof.
  intros (Hr & e & He & HE & HD)
         (a & s & e' & _ & _ & _ & _ & _ & _ & He1 & He' & Hm & Hframe & _ &
          Hr' & Hlog).
  rewrite He in He1. injection He1 as <-.
  assert (HE' : get (maps w') (Meta e) = get (maps w) (Meta e)).
  { rewrite Hm. destruct text; [|done].
    apply delete_id. by rewrite HE. }
  assert (HD' : get (maps w') (descriptor db) = get (maps w) (descriptor db)).
  { destruct (decide (descriptor db = Meta e)) as [->|Hne]; [done|].
    unfold get. rewrite Hframe; [done| |done]. by destruct Hr. }
  split.
  - split; [done|]. exists e. split; [done|]. by rewrite HE', HD'.
  - rewrite Hlog. f_equal. cbn [replicate]. do 4 f_equal.
    rewrite HE. destruct text as [q|].
    + by rewrite span_meta_statement, bool_decide_eq_true_2.
    + by rewrite bool_decide_eq_true_2.
Qed.

Lemma transaction_step_passes db tmpl query w result w' :
  fits db tmpl w →
  transaction_step statement_tag_wins db tmpl query w result w' →
  fits db tmpl w' ∧ asserted w' = asserted w ++ replicate 9 true.
Proof.
  intros (Hr & e & He & HE & HD) (b & x & c & P & sb & sx & sc & e' & Hpost).
  destruct Hpost as (_ & _ & _ & _ & _ & _ & _ & _ & _ & _ & _ & _ & _ &
                     _ & _ & _ & He1 & He' & Hm & Hframe & _ & Hr' & Hlog).
  rewrite He in He1. injection He1 as <-.
  assert (HE' : get (maps w') (Meta e) = get (maps w) (Meta e)).
  { rewrite Hm. apply delete_id. by rewrite HE. }
  assert (HD' : get (maps w') (descriptor db) = get (maps w) (descriptor db)).
  { destruct (decide (descriptor db = Meta e)) as [->|Hne]; [done|].
    unfold get. rewrite Hframe; [done| |done]. by destruct Hr. }
  split.
  - split; [done|]. exists e. split; [done|]. by rewrite HE', HD'.
  - rewrite Hlog. f_equal. cbn [replicate]. do 6 f_equal.
    rewrite HE, span_meta_statement by done.
    rewrite (delete_id _ _ HD).
    by rewrite !bool_decide_eq_true_2.
Qed.

(** Against the traced handle of the specification, and with an expected
    span that fits the handle, [AllSQLTests] runs to its end without
    panic and every one of its thirty-nine assertions holds. *)
Lemma AllSQLTests_passes db tmpl w :
  fits (sqlDB db) tmpl w →
  ∃ w', AllSQLTests statement_tag_wins CopySpan_shares_meta db tmpl w
        = Some (tt, w') ∧
        asserted w' = asserted w ++ replicate 39 true ∧
        fits (sqlDB db) tmpl w'.
Proof.
  intros Hf0.
  destruct (ScriptFacts.testDB_Ping_spec statement_tag_wins
              CopySpan_shares_meta db tmpl w (proj1 Hf0))
    as (t1 & w1 & Hrun1 & Hpost1).
  destruct (one_span_step_passes _ _ _ _ _ _ _ _ Hf0 Hpost1) as [Hf1 Hlog1].
  destruct (ScriptFacts.testDB_Query_spec statement_tag_wins
              CopySpan_shares_meta db tmpl
              "select id, name, population from city limit 5" w1 (proj1 Hf1))
    as (t2 & w2 & Hrun2 & Hpost2).
  destruct (one_span_step_passes _ _ _ _ _ _ _ _ Hf1 Hpost2) as [Hf2 Hlog2].
  destruct (ScriptFacts.testStatement_Prepare_spec statement_tag_wins
              CopySpan_shares_meta db tmpl (statement_query db) w2 (proj1 Hf2))
    as (t3 & w3 & Hrun3 & Hpost3).
  destruct (one_span_step_passes _ _ _ _ _ _ _ _ Hf2 Hpost3) as [Hf3 Hlog3].
  destruct (ScriptFacts.testStatement_Exec_spec statement_tag_wins
              CopySpan_shares_meta db tmpl
              (mkStmt (sqlDB db) (statement_query db)) w3 (proj1 Hf3))
    as (t4 & w4 & Hrun4 & Hpost4).
  destruct (one_span_step_passes _ _ _ _ _ _ _ _ Hf3 Hpost4) as [Hf4 Hlog4].
  destruct (ScriptFacts.testTransaction_Begin_spec statement_tag_wins
              CopySpan_shares_meta db tmpl w4 (proj1 Hf4))
    as (t5 & w5 & Hrun5 & Hpost5).
  destruct (one_span_step_passes _ _ _ _ _ _ _ _ Hf4 Hpost5) as [Hf5 Hlog5].
  destruct (ScriptFacts.testTransaction_Rollback_spec statement_tag_wins
              CopySpan_shares_meta db tmpl (mkTx (sqlDB db) Background) w5
              eq_refl (proj1 Hf5))
    as (t6 & w6 & Hrun6 & Hpost6).
  destruct (one_span_step_passes _ _ _ _ _ _ _ _ Hf5 Hpost6) as [Hf6 Hlog6].
  destruct (ScriptFacts.testTransaction_Exec_spec statement_tag_wins
              CopySpan_shares_meta db tmpl
              "INSERT INTO city(name) VALUES('New York')" w6 (proj1 Hf6))
    as (t7 & w7 & Hrun7 & Hpost7).
  destruct (transaction_step_passes _ _ _ _ _ _ Hf6 Hpost7) as [Hf7 Hlog7].
  exists w7. split; [|split; [|done]].
  - unfold AllSQLTests, testDB, testStatement, testTransaction.
    cbn zeta.
    erewrite ScriptFacts.bind_run; cycle 1.
    { erewrite ScriptFacts.bind_run by exact Hrun1.
      erewrite ScriptFacts.bind_run by exact Hrun2. reflexivity. }
    erewrite ScriptFacts.bind_run; cycle 1.
    { erewrite ScriptFacts.bind_run by exact Hrun3. cbn [fst].
      erewrite ScriptFacts.bind_run by exact Hrun4. reflexivity. }
    erewrite ScriptFacts.bind_run by exact Hrun5. cbn [fst].
    erewrite ScriptFacts.bind_run by exact Hrun6.
    erewrite ScriptFacts.bind_run by exact Hrun7. reflexivity.
  - rewrite Hlog7, Hlog6, Hlog5, Hlog4, Hlog3, Hlog2, Hlog1.
    rewrite <-!app_assoc. f_equal.
Qed.
End WholeScript.

(** ** The script over arbitrary callees *)

Module CalleeFacts.

Lemma bind_assoc {A B C} (m : T A) (k : A → T B) (k' : B → T C) w :
  bind (bind m k) k' w = bind m (λ a, bind (k a) k') w.
Proof. unfold bind. by destruct (m w) as [[a w']|]. Qed.

Lemma bind_ret_l {A B} (a : A) (k : A → T B) w : bind (ret a) k w = k a w.
Proof. reflexivity. Qed.

Lemma bind_ret_tt (m : T unit) w : bind m (λ _, ret tt) w = m w.
Proof. unfold bind, ret. by destruct (m w) as [[[] w']|]. Qed.

Lemma bind_ext {A B} (m : T A) (k k' : A → T B) w :
  (∀ a w', k a w' = k' a w') → bind m k w = bind m k' w.
Proof. intros Hk. unfold bind. by destruct (m w) as [[a w']|]. Qed.

(** A run panics when whatever follows its first step panics. *)
Lemma bind_panics {A B} (m : T A) (k : A → T B) w :
  (∀ a w', m w = Some (a, w') → k a w' = None) → bind m k w = None.
Proof. intros Hk. unfold bind. destruct (m w) as [[a w']|] eqn:Hm; eauto. Qed.

Lemma index_run {A} (l : list A) i w a w' :
  index l i w = Some (a, w') → l !! i = Some a.
Proof. unfold index. destruct (l !! i); [by intros [= -> _] | done]. Qed.

Lemma bind_index_panics {A B} (l : list A) i (k : A → T B) w :
  l !! i = None → bind (index l i) k w = None.
Proof. intros Hl. unfold bind, index. by rewrite Hl. Qed.

(** Two runs that make the same calls in the same order. *)
Ltac same_run :=
  repeat first
    [ reflexivity
    | rewrite bind_assoc
    | rewrite bind_ret_l
    | apply bind_ext; intros ? ?
    | match goal with
      | |- ?m ?w = bind ?m _ ?w => etrans; [symmetry; apply bind_ret_tt|]
      end ].

(** Walks along a run up to an index expression that is out of range. *)
Ltac to_panic out_of_range :=
  repeat first
    [ apply bind_index_panics; solve [out_of_range]
    | apply bind_panics; intros ? ? ? ].

(** With the handle modelled from the specification as callees, the
    script is the script of the previous sections. *)
Lemma AllSQLTests_modelled wins shares (db : DB) (expectedSpan : nat) (w : World) :
  Abstract.AllSQLTests (modelled wins shares (sqlDB db)) db expectedSpan w
  = AllSQLTests wins shares db expectedSpan w.
Proof.
  unfold Abstract.AllSQLTests, AllSQLTests.
  unfold Abstract.testDB, Abstract.testStatement, Abstract.testTransaction.
  unfold testDB, testStatement, testTransaction.
  unfold testDB_Ping, testDB_Query, testStatement_Prepare, testStatement_Exec,
    testTransaction_Begin, testTransaction_Rollback, testTransaction_Exec.
  unfold defer. cbn [modelled Abstract.Ping Abstract.Query Abstract.Rows_Close
    Abstract.Prepare Abstract.Stmt_Exec Abstract.Begin Abstract.BeginTx
    Abstract.Tx_Rollback Abstract.Tx_ExecContext Abstract.Tx_Commit
    Abstract.NewRootSpan Abstract.Background Abstract.ContextWithSpan
    Abstract.FlushTraces Abstract.Traces Abstract.CopySpan Abstract.SetMeta
    Abstract.CompareSpan].
  same_run.
Qed.

End CalleeFacts.

Section Panics.
Import CalleeFacts.

Variable c : Abstract.Callees.

(** X12. The assertions of the script do not stop it: when the transport
    hands over no trace, or a first trace without spans, the failed
    length assertion is only recorded and the next line indexes out of
    range.  So with such a transport none of [testDB], [testStatement],
    [testTransaction] and [AllSQLTests] returns, whatever the handle and
    the other callees do: the run ends in a panic, of a callee or of the
    index expression [traces[0]] or [spans[0]]. *)
Theorem script_panics_without_first_span (db : DB) (expectedSpan : nat)
    (w : World) :
  (∀ w0 traces w1, Abstract.Traces c w0 = Some (traces, w1) →
                   traces !! 0 ≫= (.!! 0) = None) →
  Abstract.testDB c db expectedSpan w = None ∧
  Abstract.testStatement c db expectedSpan w = None ∧
  Abstract.testTransaction c db expectedSpan w = None ∧
  Abstract.AllSQLTests c db expectedSpan w = None.
Proof.
  intros Hno.
  assert (Hrange : ∀ w0 traces w1 w2 w3 (spans : list nat),
            Abstract.Traces c w0 = Some (traces, w1) →
            index traces 0 w2 = Some (spans, w3) → spans !! 0 = None).
  { intros w0 traces w1 w2 w3 spans Ht Hi.
    apply Hno in Ht. apply index_run in Hi. by rewrite Hi in Ht. }
  assert (HDB : ∀ w, Abstract.testDB c db expectedSpan w = None).
  { intros w0. unfold Abstract.testDB. to_panic ltac:(eauto). }
  split; [apply HDB|]. split; [|split].
  - unfold Abstract.testStatement. to_panic ltac:(eauto).
  - unfold Abstract.testTransaction. to_panic ltac:(eauto).
  - unfold Abstract.AllSQLTests. apply bind_panics. intros ? ? He.
    by rewrite HDB in He.
Qed.

(** X13. [testTransaction] reads the second and the third span of the
    trace it takes after the commit, whatever its length assertion found:
    when the first trace the transport hands over always has fewer than
    three spans, [testTransaction], and [AllSQLTests] with it, does not
    return, whatever the handle and the other callees do: the run ends in
    a panic, of a callee or of an index expression, [spans[2]] at the
    latest. *)
Theorem testTransaction_panics_on_short_trace (db : DB) (expectedSpan : nat)
    (w : World) :
  (∀ w0 traces w1 spans,
     Abstract.Traces c w0 = Some (traces, w1) →
     traces !! 0 = Some spans → length spans < 3) →
  Abstract.testTransaction c db expectedSpan w = None ∧
  Abstract.AllSQLTests c db expectedSpan w = None.
Proof.
  intros Hshort.
  assert (Hrange : ∀ w0 traces w1 w2 w3 (spans : list nat),
            Abstract.Traces c w0 = Some (traces, w1) →
            index traces 0 w2 = Some (spans, w3) → spans !! 2 = None).
  { intros w0 traces w1 w2 w3 spans Ht Hi. apply index_run in Hi.
    apply lookup_ge_None_2. specialize (Hshort _ _ _ _ Ht Hi). lia. }
  assert (HTx : ∀ w, Abstract.testTransaction c db expectedSpan w = None).
  { intros w0. unfold Abstract.testTransaction. to_panic ltac:(eauto). }
  split; [apply HTx|].
  unfold Abstract.AllSQLTests. do 2 (apply bind_panics; intros ? ? _).
  apply HTx.
Qed.

End Panics.

(** The handle of the scenario with a transport that never has a
    trace. *)
Lemma script_panics_without_first_span_witness :
  let c := with_Traces (modelled true false (sqlDB example_db)) (ret []) in
  (∀ w0 traces w1, Abstract.Traces c w0 = Some (traces, w1) →
                   traces !! 0 ≫= (.!! 0) = None) ∧
  Abstract.testDB c example_db 0 example_world = None ∧
  Abstract.testStatement c example_db 0 example_world = None ∧
  Abstract.testTransaction c example_db 0 example_world = None ∧
  Abstract.AllSQLTests c example_db 0 example_world = None.
Proof.
  intros c.
  assert (Hno : ∀ w0 traces w1, Abstract.Traces c w0 = Some (traces, w1) →
                                traces !! 0 ≫= (.!! 0) = None).
  { intros w0 traces w1 [= <- _]. reflexivity. }
  split; [exact Hno|].
  exact (script_panics_without_first_span c example_db 0 example_world Hno).
Defined.

(** The handle of the scenario with a transport that always has one
    trace of two spans. *)
Lemma testTransaction_panics_on_short_trace_witness :
  let c := with_Traces (modelled true false (sqlDB example_db)) (ret [[0; 0]]) in
  (∀ w0 traces w1 spans,
     Abstract.Traces c w0 = Some (traces, w1) →
     traces !! 0 = Some spans → length spans < 3) ∧
  Abstract.testTransaction c example_db 0 example_world = None ∧
  Abstract.AllSQLTests c example_db 0 example_world = None.
Proof.
  intros c.
  assert (Hshort : ∀ w0 traces w1 spans,
            Abstract.Traces c w0 = Some (traces, w1) →
            traces !! 0 = Some spans → length spans < 3).
  { intros w0 traces w1 spans [= <- _] [= <-]. simpl. lia. }
  split; [exact Hshort|].
  exact (testTransaction_panics_on_short_trace c example_db 0 example_world
           Hshort).
Defined.

(** With the transport modelled from the specification the same script
    runs to its end in the world of the scenario. *)
Example Abstract_AllSQLTests_example :
  asserted <$> (snd <$> Abstract.AllSQLTests
                          (modelled true false (sqlDB example_db))
                          example_db 0 example_world)
  = Some (replicate 39 true).
Proof. by vm_compute. Qed.

(** ** What the script leaves alone *)

Module KeepFacts.

Section WithSpan.
Variable e : nat.

Lemma keeps_bind {A B} (m : T A) (k : A → T B) (Q : A → Prop) (R : B → Prop) :
  keeps e m Q → (∀ a, Q a → keeps e (k a) R) → keeps e (bind m k) R.
Proof.
  intros Hm Hk w b w' s Hrun Hs. unfold bind in Hrun.
  destruct (m w) as [[a w1]|] eqn:Hmw; [|done].
  destruct (Hm _ _ _ _ Hmw Hs) as [Hs1 HQ].
  by apply (Hk a HQ w1).
Qed.

Lemma keeps_ret {A} (a : A) (R : A → Prop) : R a → keeps e (ret a) R.
Proof. intros HR w a' w' s [= <- <-] Hs. done. Qed.

Lemma keeps_weaken {A} (m : T A) (Q R : A → Prop) :
  keeps e m Q → (∀ a, Q a → R a) → keeps e m R.
Proof.
  intros Hm HQR w a w' s Hrun Hs.
  destruct (Hm _ _ _ _ Hrun Hs). auto.
Qed.

Lemma keeps_index {A} (l : list A) i : keeps e (index l i) (λ _, True).
Proof.
  intros w a w' s Hrun Hs. unfold index in Hrun.
  destruct (l !! i); [|done]. by injection Hrun as <- <-.
Qed.

Lemma keeps_assert_that b : keeps e (assert_that b) (λ _, True).
Proof. by intros w a w' s [= <- <-] Hs. Qed.

Lemma keeps_on_maps {A}
    (f : list (gmap string string) → A * list (gmap string string)) :
  keeps e (on_maps f) (λ _, True).
Proof.
  intros w a w' s Hrun Hs. unfold on_maps in Hrun.
  destruct (f (maps w)) as [a' h]. by injection Hrun as <- <-.
Qed.

Lemma keeps_read_map l : keeps e (read_map l) (λ _, True).
Proof. by intros w a w' s [= <- <-] Hs. Qed.

Lemma keeps_load p : keeps e (load p) (λ _, True).
Proof.
  intros w a w' s Hrun Hs. unfold load in Hrun.
  destruct (spans w !! p); [|done]. by injection Hrun as <- <-.
Qed.

(** A new span object is not one that exists. *)
Lemma keeps_new_span s0 : keeps e (new_span s0) (λ p, p ≠ e).
Proof.
  intros w a w' s [= <- <-] Hs. simpl. split.
  - by apply lookup_app_l_Some.
  - apply lookup_lt_Some in Hs. lia.
Qed.

Lemma keeps_set_Resource p r : p ≠ e → keeps e (set_Resource p r) (λ _, True).
Proof.
  intros Hne. unfold set_Resource. eapply keeps_bind; [apply keeps_load|].
  intros s0 _ w a w' s [= <- <-] Hs. simpl.
  by rewrite list_lookup_insert_ne.
Qed.

Lemma keeps_delete_statement_text p :
  keeps e (delete_statement_text p) (λ _, True).
Proof.
  unfold delete_statement_text. eapply keeps_bind; [apply keeps_load|].
  intros s0 _. apply keeps_on_maps.
Qed.

End WithSpan.

(** Follows a run of the script call by call. *)
Ltac keep c Hc :=
  repeat first
    [ apply keeps_ret; done
    | eapply keeps_bind;
      [ first [ apply keeps_index | apply keeps_assert_that
              | apply keeps_set_Resource; assumption
              | apply keeps_delete_statement_text
              | apply (la_Ping c _ Hc) | apply (la_Query c _ Hc)
              | apply (la_Rows_Close c _ Hc) | apply (la_Prepare c _ Hc)
              | apply (la_Stmt_Exec c _ Hc) | apply (la_Begin c _ Hc)
              | apply (la_BeginTx c _ Hc) | apply (la_Tx_Rollback c _ Hc)
              | apply (la_Tx_ExecContext c _ Hc) | apply (la_Tx_Commit c _ Hc)
              | apply (la_NewRootSpan c _ Hc) | apply (la_FlushTraces c _ Hc)
              | apply (la_Traces c _ Hc) | apply (la_CopySpan c _ Hc)
              | apply (la_SetMeta c _ Hc) | apply (la_CompareSpan c _ Hc)
              | solve [keep c Hc] ]
      | cbv beta; intros ? ? ]
    | apply keeps_delete_statement_text
    | apply (la_CompareSpan c _ Hc) ].

Section Script.

Variable c : Abstract.Callees.
Variable expectedSpan : nat.
Hypothesis Hc : LeaveAlone c expectedSpan.

Lemma testDB_keeps db :
  keeps expectedSpan (Abstract.testDB c db expectedSpan) (λ _, True).
Proof.
  unfold Abstract.testDB, defer, assert_Equal_nil, assert_Len. keep c Hc.
Qed.

Lemma testStatement_keeps db :
  keeps expectedSpan (Abstract.testStatement c db expectedSpan) (λ _, True).
Proof.
  unfold Abstract.testStatement, assert_Equal_nil, assert_Len. keep c Hc.
Qed.

Lemma testTransaction_keeps db :
  keeps expectedSpan (Abstract.testTransaction c db expectedSpan) (λ _, True).
Proof.
  unfold Abstract.testTransaction, assert_Equal_nil, assert_Len. keep c Hc.
Qed.

End Script.

(** *** The handle modelled from the specification *)

Section Modelled.

Variable e : nat.
Variables wins shares : bool.

Ltac prim :=
  first [ apply keeps_read_map | apply keeps_load | apply keeps_on_maps
        | apply keeps_assert_that | apply keeps_ret; done ].

Lemma keeps_fresh_id : keeps e fresh_id (λ _, True).
Proof. by intros w a w' s [= <- <-] Hs. Qed.

Lemma keeps_Finish p : keeps e (Finish p) (λ _, True).
Proof. by intros w a w' s [= <- <-] Hs. Qed.

Lemma keeps_FlushTraces : keeps e FlushTraces (λ _, True).
Proof.
  intros w a w' s Hrun Hs. unfold FlushTraces in Hrun.
  destruct (mapM _ _); [|done]. by injection Hrun as <- <-.
Qed.

Lemma keeps_Transport_Traces : keeps e Transport_Traces (λ _, True).
Proof. by intros w a w' s [= <- <-] Hs. Qed.

Lemma keeps_SetMeta p k v : keeps e (SetMeta p k v) (λ _, True).
Proof. unfold SetMeta. eapply keeps_bind; [prim|]. intros ? _. prim. Qed.

Lemma keeps_startSpan ty r ctx base :
  keeps e (startSpan ty r ctx base) (λ _, True).
Proof.
  unfold startSpan, alloc_map.
  eapply keeps_bind; [apply keeps_fresh_id|]. intros ? _.
  eapply keeps_bind; [prim|]. intros ? _.
  destruct ctx.
  - eapply keeps_bind; [prim|]. intros ? _.
    eapply keeps_weaken; [apply keeps_new_span | done].
  - eapply keeps_weaken; [apply keeps_new_span | done].
Qed.

Lemma keeps_traced db ty r ctx text :
  keeps e (traced wins db ty r ctx text) (λ _, True).
Proof.
  unfold traced.
  eapply keeps_bind; [prim|]. intros ? _.
  eapply keeps_bind; [apply keeps_startSpan|]. intros ? _.
  eapply keeps_bind.
  { instantiate (1 := λ _, True). destruct text; [|prim].
    unfold attach_statement_text.
    eapply keeps_bind; [prim|]. intros ? _.
    eapply keeps_bind; [prim|]. intros meta _.
    destruct (meta !! sql_query_key); [destruct wins|];
      first [apply keeps_SetMeta | prim]. }
  intros ? _. eapply keeps_bind; [apply keeps_Finish|]. intros ? _. prim.
Qed.

Lemma keeps_CopySpan p : keeps e (CopySpan shares p) (λ copy, copy ≠ e).
Proof.
  unfold CopySpan, alloc_map.
  eapply keeps_bind; [prim|]. intros ? _.
  eapply keeps_bind.
  { instantiate (1 := λ _, True). destruct shares; [prim|].
    eapply keeps_bind; [prim|]. intros ? _. prim. }
  intros ? _. apply keeps_new_span.
Qed.

Ltac walk :=
  repeat first
    [ prim
    | apply keeps_traced
    | apply (keeps_bind e _ _ (λ _, True)); [solve [walk] | intros ? _] ].

Lemma keeps_CompareSpan p a : keeps e (CompareSpan p a) (λ _, True).
Proof. unfold CompareSpan. walk. Qed.

(** The handle modelled from the specification writes to no span object
    that exists already, whichever way [CopySpan] treats the metadata
    map. *)
Lemma modelled_LeaveAlone db : LeaveAlone (modelled wins shares db) e.
Proof.
  split; cbn [modelled Abstract.Ping Abstract.Query Abstract.Rows_Close
    Abstract.Prepare Abstract.Stmt_Exec Abstract.Begin Abstract.BeginTx
    Abstract.Tx_Rollback Abstract.Tx_ExecContext Abstract.Tx_Commit
    Abstract.NewRootSpan Abstract.Background Abstract.ContextWithSpan
    Abstract.FlushTraces Abstract.Traces Abstract.CopySpan Abstract.SetMeta
    Abstract.CompareSpan]; intros;
    first [ apply keeps_FlushTraces | apply keeps_Transport_Traces
          | apply keeps_CopySpan | apply keeps_SetMeta | apply keeps_CompareSpan
          | apply keeps_startSpan | prim
          | idtac ].
  all: unfold DB_Ping, DB_PingContext, DB_Query, DB_QueryContext, DB_Prepare,
    DB_PrepareContext, Stmt_Exec, Stmt_ExecContext, DB_Begin, DB_BeginTx,
    Tx_Rollback, Tx_Commit, Tx_ExecContext.
  all: walk.
Qed.

End Modelled.

End KeepFacts.

(** X14. The script writes to the copies [CopySpan] returns, never to the
    expected span itself: when no callee writes to the span object
    [expectedSpan] points to and [CopySpan] returns another object, then
    after [testDB], [testStatement], [testTransaction] and [AllSQLTests]
    that object, if it existed before, holds what it held, its resource
    and the address of its metadata map among the rest.  (The metadata
    map itself is what the script deletes the statement-text key
    from.) *)
Theorem script_leaves_expected_span_alone (c : Abstract.Callees) (db : DB)
    (expectedSpan : nat) :
  LeaveAlone c expectedSpan →
  keeps expectedSpan (Abstract.testDB c db expectedSpan) (λ _, True) ∧
  keeps expectedSpan (Abstract.testStatement c db expectedSpan) (λ _, True) ∧
  keeps expectedSpan (Abstract.testTransaction c db expectedSpan) (λ _, True) ∧
  keeps expectedSpan (Abstract.AllSQLTests c db expectedSpan) (λ _, True).
Proof.
  intros Hc.
  pose proof (KeepFacts.testDB_keeps c expectedSpan Hc db) as HDB.
  pose proof (KeepFacts.testStatement_keeps c expectedSpan Hc db) as HSt.
  pose proof (KeepFacts.testTransaction_keeps c expectedSpan Hc db) as HTx.
  do 3 (split; [done|]).
  unfold Abstract.AllSQLTests.
  eapply KeepFacts.keeps_bind; [exact HDB|]. intros _ _.
  eapply KeepFacts.keeps_bind; [exact HSt|]. intros _ _. exact HTx.
Qed.

(** The handle of the scenario and its expected span. *)
Lemma script_leaves_expected_span_alone_witness :
  let c := modelled true false (sqlDB example_db) in
  LeaveAlone c 0 ∧
  keeps 0 (Abstract.testDB c example_db 0) (λ _, True) ∧
  keeps 0 (Abstract.testStatement c example_db 0) (λ _, True) ∧
  keeps 0 (Abstract.testTransaction c example_db 0) (λ _, True) ∧
  keeps 0 (Abstract.AllSQLTests c example_db 0) (λ _, True).
Proof.
  intros c.
  assert (Hc : LeaveAlone c 0) by apply KeepFacts.modelled_LeaveAlone.
  split; [exact Hc|].
  exact (script_leaves_expected_span_alone c example_db 0 Hc).
Defined.

(** In the world of the scenario the expected span is the same object
    after the script. *)
Example expected_span_after_script :
  (λ r, spans r.2 !! 0) <$> Abstract.AllSQLTests
                              (modelled true true (sqlDB example_db))
                              example_db 0 example_world
  = Some (spans example_world !! 0).
Proof. by vm_compute. Qed.

(** ** The statement text of [testStatement] *)

Lemma lower_ascii_idemp c : lower_ascii (lower_ascii c) = lower_ascii c.
Proof. by destruct c as [[] [] [] [] [] [] [] []]. Qed.

Lemma ToLower_idemp s : ToLower (ToLower s) = ToLower s.
Proof.
  induction s as [|c s IH]; [done|]. simpl. by rewrite lower_ascii_idemp, IH.
Qed.

(** X11. The statement [testStatement] prepares is the insert statement
    with the placeholder of the database: [$1] when the name of the
    database, compared without regard to case, is postgres, [?] when it
    is mysql, and for every other name the unformatted verb [%s], which
    [fmt.Sprintf] never sees.  Lowering the case of the name does not
    change the statement. *)
Theorem statement_query_by_dialect (db : DB) :
  let name := ToLower (Name db) in
  statement_query db =
    "INSERT INTO city(name) VALUES(" +:+
    (if String.eqb name "postgres" then "$1"
     else if String.eqb name "mysql" then "?"
     else "%s") +:+ ")" ∧
  statement_query (mkDB (sqlDB db) name (Service db)) = statement_query db.
Proof.
  cbn zeta. split.
  - unfold statement_query.
    destruct (String.eqb (ToLower (Name db)) "postgres"); [reflexivity|].
    by destruct (String.eqb (ToLower (Name db)) "mysql").
  - unfold statement_query. cbn [Name]. by rewrite ToLower_idemp.
Qed.

(** ** The end-to-end scenario *)

(** The tags of the scenario are the table image of its raw attributes. *)
Example example_tags_table_image : table_image example_raw = example_tags.
Proof. by vm_compute. Qed.

(** [newDB] opens the handle of the scenario. *)
Example newDB_example :
  newDB reverse_order example_parser example_parser true
        "postgres" "city-service" "*pq.Driver" example_dsn empty_world
  = Some (example_db, opened_world).
Proof. by vm_compute. Qed.

(** A malformed DSN ends [newDB] when parse errors fail the opening, and
    gives a handle without tags when they do not. *)
Example newDB_bad_dsn_fatal :
  newDB canonical_order example_parser example_parser true
        "postgres" "city-service" "*pq.Driver" "dbname" empty_world
  = None.
Proof. by vm_compute. Qed.

Example newDB_bad_dsn_lenient :
  newDB canonical_order example_parser example_parser false
        "postgres" "city-service" "*pq.Driver" "dbname" empty_world
  = Some (example_db, mkWorld [∅; ∅] [] 1 [] [] []).
Proof. by vm_compute. Qed.

(** The statement text of [testStatement] follows the name of the
    database, compared without regard to case. *)
Example statement_query_postgres :
  statement_query (mkDB (mkHandle 1) "Postgres" "city-service")
  = "INSERT INTO city(name) VALUES($1)".
Proof. reflexivity. Qed.

Example statement_query_mysql :
  statement_query (mkDB (mkHandle 1) "MySQL" "city-service")
  = "INSERT INTO city(name) VALUES(?)".
Proof. reflexivity. Qed.

Example statement_query_other :
  statement_query (mkDB (mkHandle 1) "sqlite" "city-service")
  = "INSERT INTO city(name) VALUES(%s)".
Proof. reflexivity. Qed.

(** A query through the handle of the scenario closes one span with the
    statement as resource, tagged with the four tags of the handle and the
    statement text. *)
Example DB_Query_example :
  let q := "SELECT id,name,population FROM city LIMIT 5" in
  DB_Query true (sqlDB example_db) q opened_world
  = Some (None,
          mkWorld [example_raw; example_tags; <["sql.query" := q]> example_tags]
                  [mkSpan Query q 2 1 1 None] 2 [0] [] []).
Proof. by vm_compute. Qed.

(** The script passes in the world of the scenario, in both readings of
    [CopySpan] and of the tag precedence. *)
Example AllSQLTests_example :
  ∀ wins shares,
    (asserted <$> (snd <$> AllSQLTests wins shares example_db 0 example_world))
    = Some (replicate 39 true).
Proof. intros [|] [|]; by vm_compute. Qed.

(** ** The theorems at the scenario *)

(** The steps of the script in the world of the scenario. *)
Lemma script_one_span_per_call_witness :
  ready (sqlDB example_db) 0 example_world ∧
  ltac:(let T := type of (script_one_span_per_call true true example_db 0
                            "select id, name, population from city limit 5"
                            example_world) in
        lazymatch T with _ → ?C => exact C end).
Proof.
  assert (Hr : ready (sqlDB example_db) 0 example_world).
  { unfold ready. simpl. split; [lia|]. split; [|done].
    eexists. split; [reflexivity|]. simpl. lia. }
  split; [exact Hr|].
  exact (script_one_span_per_call true true example_db 0 _ example_world Hr).
Defined.

(** The resource names in the world of the scenario, when [CopySpan]
    copies the metadata map. *)
Lemma script_resource_names_witness :
  ready (sqlDB example_db) 0 example_world ∧
  ltac:(let T := type of (script_resource_names false false example_db 0
                            "select id, name, population from city limit 5"
                            example_world) in
        lazymatch T with _ → ?C => exact C end).
Proof.
  assert (Hr : ready (sqlDB example_db) 0 example_world).
  { unfold ready. simpl. split; [lia|]. split; [|done].
    eexists. split; [reflexivity|]. simpl. lia. }
  split; [exact Hr|].
  exact (script_resource_names false false example_db 0 _ example_world Hr).
Defined.

(** The expected span of the scenario, compared with itself, when
    [CopySpan] shares the metadata map. *)
Lemma script_clears_statement_text_witness :
  ready (sqlDB example_db) 0 example_world ∧
  spans example_world !! 0 = Some (mkSpan Query "" 2 0 0 None) ∧
  ltac:(let T := type of (script_clears_statement_text false true example_db 0
                            "INSERT INTO city(name) VALUES($1)"
                            example_world 0 (mkSpan Query "" 2 0 0 None)) in
        lazymatch T with _ → _ → ?C => exact C end).
Proof.
  assert (Hr : ready (sqlDB example_db) 0 example_world).
  { unfold ready. simpl. split; [lia|]. split; [|done].
    eexists. split; [reflexivity|]. simpl. lia. }
  split; [exact Hr|]. split; [reflexivity|].
  exact (script_clears_statement_text false true example_db 0 _ example_world
           0 _ Hr eq_refl).
Defined.

(** A transaction of the scenario under the expected span as parent. *)
Lemma transaction_spans_share_parent_trace_witness :
  spans example_world !! 0 = Some (mkSpan Query "" 2 0 0 None) ∧
  ready (sqlDB example_db) 0 example_world ∧
  ltac:(let T := type of (transaction_spans_share_parent_trace true false
                            (sqlDB example_db) example_world 0
                            (mkSpan Query "" 2 0 0 None) Background
                            "INSERT INTO city(name) VALUES('New York')"
                            example_db 0
                            "INSERT INTO city(name) VALUES('New York')"
                            example_world) in
        lazymatch T with _ → _ → ?C => exact C end).
Proof.
  assert (Hr : ready (sqlDB example_db) 0 example_world).
  { unfold ready. simpl. split; [lia|]. split; [|done].
    eexists. split; [reflexivity|]. simpl. lia. }
  split; [reflexivity|]. split; [exact Hr|].
  exact (transaction_spans_share_parent_trace true false (sqlDB example_db)
           example_world 0 (mkSpan Query "" 2 0 0 None) Background _
           example_db 0 _ example_world eq_refl Hr).
Defined.

(** Prepare and exec on the handle [newDB] opens in the scenario. *)
Lemma statement_exec_uses_prepared_text_witness :
  ∃ stmt w1 s w2,
    DB_Prepare false (sqlDB example_db) "INSERT INTO city(name) VALUES($1)"
               opened_world = Some ((stmt, None), w1) ∧
    stmt_query stmt = "INSERT INTO city(name) VALUES($1)" ∧
    Stmt_Exec false stmt ["New York"] w1 = Some (None, w2) ∧
    one_span_closed w1 w2 s ∧
    SpanType s = Execute ∧
    Resource s = "INSERT INTO city(name) VALUES($1)" ∧
    Store.get (maps w2) (Meta s) !! "sql.query"
      = Some "INSERT INTO city(name) VALUES($1)".
Proof.
  apply (statement_exec_uses_prepared_text false reverse_order example_parser
           example_parser true "postgres" "city-service" "*pq.Driver"
           example_dsn empty_world example_db opened_world).
  by vm_compute.
Defined.
